(** * AirBnBDataHandler: the chainable listing pipeline and its aggregations

    A shallow embedding of [createDataHandler] (AirBnBDataHandler.js) and
    of the methods of the handler object it returns.

    Modelling conventions.
    - A JavaScript number is a binary64 value: [NaN], an infinity, or a
      finite double, which is given by its exact rational value.  A sum
      or a quotient is rounded to the nearest double, ties to even, and
      to an infinity beyond the largest double; comparisons are exact.
      The numbers of a listing of the pipeline are finite; the
      aggregations are defined for rows with any numbers.  A division
      by zero is reported as [Throw NonFinite], so that "no division by
      zero" is a statement about the code and not about the number
      type.
    - Arrays are heap objects: the heap is the list of the arrays
      allocated so far and a reference is an index into it.  No method
      of the handler writes into an array that exists; [filter] and the
      spread [[...listingData]] allocate a new one.  The elements are
      shared between the arrays (JavaScript copies references), and no
      method assigns to a field of a listing.
    - The two closure variables of [createDataHandler], [listingData]
      and [currentData], hold references.
    - A plain object used as a dictionary is an association list in
      insertion order together with the enumeration order of
      [OrdinaryOwnPropertyKeys] and the lookup through
      [Object.prototype].
    - The decoding of the records in [loadCSV], the handlers of cli.js
      that call the pipeline, and the counter of counterExample.js are
      modelled after the pipeline; what they print, and the reading of
      files and of the terminal, are outside the model. *)

From Stdlib Require Import QArith Qminmax ZArith Lia Lqa Ascii String DecimalString.
From stdpp Require Import base option list strings sorting.

Local Open Scope Q_scope.

(** ** Listings *)

(** One decoded row.  [loadCSV] turns [price], [bedrooms] and
    [review_scores_rating] into numbers; every other column stays the
    string the parser produced.  [host_id] and [host_name] are [None]
    when the file has no such column (the property is [undefined]). *)
Record Listing := {
  host_id : option string;
  host_name : option string;
  price : Q;
  bedrooms : Q;
  review_scores_rating : Q;
  columns : list (string * string)
}.

(** ** Results and the method monad *)

Inductive exn :=
| TypeError   (* a property read on [undefined] *)
| NonFinite.  (* a quotient with divisor zero *)

Inductive result (A : Type) :=
| Ok (a : A)
| Throw (e : exn).
Arguments Ok {A} a.
Arguments Throw {A} e.

Definition result_bind {A B} (f : A -> result B) (m : result A) : result B :=
  match m with
  | Ok a => f a
  | Throw e => Throw e
  end.

#[global] Instance result_mret : MRet result := fun _ a => Ok a.
#[global] Instance result_mbind : MBind result := fun _ _ f m => result_bind f m.

Definition is_Ok {A} (m : result A) : Prop := exists a, m = Ok a.

(** References to arrays of listings. *)
Definition loc := nat.

(** The heap of arrays and the closure of one handler. *)
Record world := {
  heap : list (list Listing);
  listingData : loc;
  currentData : loc
}.

(** A method body: it reads and updates the world and may throw. *)
Definition M (A : Type) : Type := world -> result (A * world).

#[global] Instance M_mret : MRet M := fun _ a w => Ok (a, w).
#[global] Instance M_mbind : MBind M := fun _ _ f m w =>
  match m w with
  | Ok (a, w') => f a w'
  | Throw e => Throw e
  end.

Definition get_listingData : M loc := fun w => Ok (listingData w, w).
Definition get_currentData : M loc := fun w => Ok (currentData w, w).

Definition set_currentData (l : loc) : M unit := fun w =>
  Ok (tt, {| heap := heap w; listingData := listingData w; currentData := l |}).

(** Reading the elements of the array a reference points to. *)
Definition read_array (l : loc) : M (list Listing) := fun w =>
  match heap w !! l with
  | Some a => Ok (a, w)
  | None => Throw TypeError
  end.

(** A new array object; the arrays that exist are left as they are. *)
Definition alloc_array (a : list Listing) : M loc := fun w =>
  Ok (length (heap w),
      {| heap := heap w ++ [a];
         listingData := listingData w;
         currentData := currentData w |}).

Definition lift {A} (r : result A) : M A := fun w =>
  match r with
  | Ok a => Ok (a, w)
  | Throw e => Throw e
  end.

(** ** Numbers *)

(** A JavaScript number is a binary64 value.  [Finite q] is the double
    whose exact value is the rational [q].  The two zeros are one
    value, [Finite 0]: comparisons do not tell them apart, a zero of
    either sign is falsy, and no method divides by a zero. *)
Inductive number :=
| NaN
| Infinity (negative : bool)
| Finite (q : Q).

(** The integer nearest to [n / d] for [n] not negative, and the even
    one of the two when [n / d] lies halfway between two integers. *)
Definition round_half_even (n : Z) (d : positive) : Z :=
  let q := (n / Zpos d)%Z in
  match (2 * (n mod Zpos d) ?= Zpos d)%Z with
  | Lt => q
  | Gt => (q + 1)%Z
  | Eq => if Z.even q then q else (q + 1)%Z
  end.

(** [n / d / 2 ^ e] as a fraction. *)
Definition scaled (n d : positive) (e : Z) : Z * positive :=
  match e with
  | Zpos p => (Zpos n, (d * 2 ^ p)%positive)
  | Z0 => (Zpos n, d)
  | Zneg p => (Zpos (n * 2 ^ p), d)
  end.

(** The exponent of the last binary place of the doubles around
    [n / d]: the [e] for which [n / d / 2 ^ e] lies from [2 ^ 52] up to
    [2 ^ 53], and [-1074] where that would be less, among the subnormal
    numbers. *)
Definition exponent (n d : positive) : Z :=
  let e := (Z.log2 (Zpos n) - Z.log2 (Zpos d) - 52)%Z in
  let '(n', d') := scaled n d e in
  Z.max (-1074) (if (n' / Zpos d' <? 2 ^ 52)%Z then e - 1 else e).

(** The significand of the double nearest to [n / d]: [n / d] in units
    of the last place, rounded to the nearest integer, ties to even. *)
Definition significand (n d : positive) : Z :=
  let '(n', d') := scaled n d (exponent n d) in round_half_even n' d'.

Definition pow2 (e : Z) : Q :=
  match e with
  | Zpos p => inject_Z (2 ^ Zpos p)
  | Z0 => 1
  | Zneg p => 1 # (2 ^ p)
  end.

(** The double nearest to the positive rational [n / d], and [None]
    when that is [2 ^ 1024] or more: the largest double is
    [(2 ^ 53 - 1) * 2 ^ 971]. *)
Definition round_magnitude (n d : positive) : option Q :=
  let e := exponent n d in
  let m := significand n d in
  if ((971 <? e) || ((e =? 971) && (2 ^ 53 <=? m)))%Z then None
  else Some (Qred (inject_Z m * pow2 e)).

(** The number a real result is rounded to: the nearest double, ties to
    even, and an infinity beyond the largest double. *)
Definition round64 (q : Q) : number :=
  let q := Qred q in
  match Qnum q with
  | Z0 => Finite 0
  | Zpos n =>
      match round_magnitude n (Qden q) with
      | Some v => Finite v
      | None => Infinity false
      end
  | Zneg n =>
      match round_magnitude n (Qden q) with
      | Some v => Finite (- v)
      | None => Infinity true
      end
  end.

(** [a + b] *)
Definition number_add (a b : number) : number :=
  match a, b with
  | NaN, _ | _, NaN => NaN
  | Infinity s, Infinity s' => if Bool.eqb s s' then Infinity s else NaN
  | Infinity s, Finite _ | Finite _, Infinity s => Infinity s
  | Finite x, Finite y => round64 (x + y)
  end.

(** [a / b] for a divisor other than zero. *)
Definition number_div (a b : number) : number :=
  match a, b with
  | NaN, _ | _, NaN => NaN
  | Infinity _, Infinity _ => NaN
  | Infinity s, Finite y => Infinity (xorb s (negb (Qle_bool 0 y)))
  | Finite _, Infinity _ => Finite 0
  | Finite x, Finite y => round64 (x / y)
  end.

Definition is_zero (a : number) : bool :=
  match a with
  | Finite q => Qeq_bool q 0
  | _ => false
  end.

(** [a / b] as the methods use it.  JavaScript answers a division by
    zero with an infinity or [NaN]; the model reports it as
    [Throw NonFinite], so that "no division by zero" is a statement
    about the code and not about the number type. *)
Definition js_div (a b : number) : result number :=
  if is_zero b then Throw NonFinite else Ok (number_div a b).

(** [a > b] *)
Definition number_gt (a b : number) : bool :=
  match a, b with
  | NaN, _ | _, NaN => false
  | Infinity true, _ => false
  | _, Infinity false => false
  | Infinity false, _ => true
  | _, Infinity true => true
  | Finite x, Finite y => negb (Qle_bool x y)
  end.

(** [a <= b] on numbers; [b >= a] is the same test. *)
Definition number_le (a b : number) : bool :=
  match a, b with
  | NaN, _ | _, NaN => false
  | Infinity true, _ => true
  | _, Infinity false => true
  | Infinity false, _ => false
  | _, Infinity true => false
  | Finite x, Finite y => Qle_bool x y
  end.

(** [x || 0] on a number. *)
Definition number_or_zero (x : number) : number :=
  match x with
  | NaN => Finite 0
  | Infinity s => Infinity s
  | Finite q => if Qeq_bool q 0 then Finite 0 else Finite q
  end.

(** The objects the aggregations read: anything with the properties
    [price], [bedrooms] and [review_scores_rating]. *)
Class Numeric (A : Type) := {
  price_of : A -> number;
  bedrooms_of : A -> number;
  review_scores_rating_of : A -> number
}.

#[global] Instance Listing_numeric : Numeric Listing := {|
  price_of item := Finite (price item);
  bedrooms_of item := Finite (bedrooms item);
  review_scores_rating_of item := Finite (review_scores_rating item)
|}.

(** ** The filter pipeline *)

(** The handler object; a method called as [handler.m(...)] receives it
    as [this]. *)
Definition objref := nat.

Definition price_in (minPrice maxPrice : Q) (item : Listing) : bool :=
  Qle_bool minPrice (price item) && Qle_bool (price item) maxPrice.

Definition bedrooms_in (minRooms maxRooms : Q) (item : Listing) : bool :=
  Qle_bool minRooms (bedrooms item) && Qle_bool (bedrooms item) maxRooms.

Definition review_in (minScore maxScore : Q) (item : Listing) : bool :=
  Qle_bool minScore (review_scores_rating item)
  && Qle_bool (review_scores_rating item) maxScore.

(** [currentData = currentData.filter(p); return this;] *)
Definition filter_current (p : Listing -> bool) (this : objref) : M objref :=
  c ← get_currentData;
  a ← read_array c;
  l ← alloc_array (List.filter p a);
  _ ← set_currentData l;
  mret this.

Definition filterByPrice (this : objref) (minPrice maxPrice : Q) : M objref :=
  filter_current (price_in minPrice maxPrice) this.

Definition filterByBedrooms (this : objref) (minRooms maxRooms : Q) : M objref :=
  filter_current (bedrooms_in minRooms maxRooms) this.

Definition filterByReviewScore (this : objref) (minScore maxScore : Q) : M objref :=
  filter_current (review_in minScore maxScore) this.

(** [currentData = [...listingData]; return this;] *)
Definition reset (this : objref) : M objref :=
  o ← get_listingData;
  a ← read_array o;
  l ← alloc_array a;
  _ ← set_currentData l;
  mret this.

(** [createDataHandler(listingData)]: the closure over the argument and
    over a copy of it. *)
Definition createDataHandler (h : list (list Listing)) (listing : loc)
  : result world :=
  match h !! listing with
  | Some a =>
      Ok {| heap := h ++ [a]; listingData := listing; currentData := length h |}
  | None => Throw TypeError
  end.

(** [AirBnBDataHandler(filePath)]: [loadCSV] builds the array of the
    decoded rows, which nothing else holds, and hands it over.  The
    decoding itself is outside the model; [rows] is its outcome. *)
Definition AirBnBDataHandler (rows : list Listing) : result world :=
  createDataHandler [rows] 0%nat.

(** The elements of the current and of the original snapshot. *)
Definition current (w : world) : option (list Listing) := heap w !! currentData w.
Definition original (w : world) : option (list Listing) := heap w !! listingData w.

(** The methods that replace [currentData], as the values a caller
    chains. *)
Inductive call :=
| FilterByPrice (minPrice maxPrice : Q)
| FilterByBedrooms (minRooms maxRooms : Q)
| FilterByReviewScore (minScore maxScore : Q)
| Reset.

Definition invoke (this : objref) (c : call) : M objref :=
  match c with
  | FilterByPrice a b => filterByPrice this a b
  | FilterByBedrooms a b => filterByBedrooms this a b
  | FilterByReviewScore a b => filterByReviewScore this a b
  | Reset => reset this
  end.

(** [handler.m1(...).m2(...)...]: each call is made on what the call
    before it returned. *)
Fixpoint chain (this : objref) (cs : list call) : M objref :=
  match cs with
  | [] => mret this
  | c :: cs' => h ← invoke this c; chain h cs'
  end.

(** Load, then a chain of calls on the handler. *)
Definition session (this : objref) (rows : list Listing) (cs : list call)
  : result (objref * world) :=
  w ← AirBnBDataHandler rows; chain this cs w.

(** ** Plain objects used as dictionaries *)

(** What [acc[k]] evaluates to. *)
Inductive lookup (V : Type) :=
| Own (v : V)   (* an own property of the object *)
| Inherited     (* a truthy member of [Object.prototype] *)
| Absent.       (* [undefined], or a falsy inherited value *)
Arguments Own {V} v.
Arguments Inherited {V}.
Arguments Absent {V}.

Section JSObject.
Context {K V : Type}.
(** Equality of property keys. *)
Variable key_eqb : K -> K -> bool.
(** The array index a key denotes, if it is one: a canonical numeric
    string below [2^32 - 1]. *)
Variable array_index : K -> option N.
(** The keys that [Object.prototype] answers with a truthy value. *)
Variable inherited : K -> bool.

(** Own properties, in the order they were created. *)
Definition props := list (K * V).

Fixpoint get_own (o : props) (k : K) : option V :=
  match o with
  | [] => None
  | (k', v) :: o' => if key_eqb k' k then Some v else get_own o' k
  end.

Definition get (o : props) (k : K) : lookup V :=
  match get_own o k with
  | Some v => Own v
  | None => if inherited k then Inherited else Absent
  end.

(** [o[k] = v] for a key that names no accessor: an existing own
    property keeps its place, a new one is created last. *)
Fixpoint set_own (o : props) (k : K) (v : V) : props :=
  match o with
  | [] => [(k, v)]
  | (k', v') :: o' =>
      if key_eqb k' k then (k', v) :: o' else (k', v') :: set_own o' k v
  end.

(** [o[k].f = e] and [o[k].f += e]: the object [o[k]] is updated in
    place.  When [o[k]] comes from the prototype the write lands on
    that object and [o] gets no property; when it is [undefined] the
    property read throws. *)
Definition update (o : props) (k : K) (f : V -> V) : result props :=
  match get o k with
  | Own v => Ok (set_own o k (f v))
  | Inherited => Ok o
  | Absent => Throw TypeError
  end.

(** Integer-indexed properties in ascending order of the index. *)
Fixpoint insert_index (i : N) (p : K * V) (l : list (N * (K * V)))
  : list (N * (K * V)) :=
  match l with
  | [] => [(i, p)]
  | (j, q) :: l' =>
      if (i <=? j)%N then (i, p) :: (j, q) :: l'
      else (j, q) :: insert_index i p l'
  end.

Fixpoint index_props (o : props) : list (N * (K * V)) :=
  match o with
  | [] => []
  | p :: o' =>
      match array_index (fst p) with
      | Some i => insert_index i p (index_props o')
      | None => index_props o'
      end
  end.

Definition is_index (p : K * V) : bool :=
  match array_index (fst p) with Some _ => true | None => false end.

(** [Object.entries(o)], in the order of [OrdinaryOwnPropertyKeys]:
    array indices ascending, then the other keys in creation order. *)
Definition Object_entries (o : props) : list (K * V) :=
  map snd (index_props o) ++ List.filter (fun p => negb (is_index p)) o.

Definition Object_values (o : props) : list V :=
  map snd (Object_entries o).
End JSObject.
Arguments props : clear implicits.

(** [Array.prototype.sort(cmp)].  The sort is stable, so for a
    comparator that orders by a key the outcome is fixed: the elements
    in order of the key, equal keys in their former order.  An
    insertion sort computes it: [x] goes before the first element it
    does not have to follow. *)
Section ArraySort.
Context {A : Type}.
Variable cmp : A -> A -> Z.

Fixpoint sort_insert (x : A) (l : list A) : list A :=
  match l with
  | [] => [x]
  | y :: l' =>
      if (cmp x y <=? 0)%Z then x :: y :: l' else y :: sort_insert x l'
  end.

Fixpoint Array_sort (l : list A) : list A :=
  match l with
  | [] => []
  | x :: l' => sort_insert x (Array_sort l')
  end.
End ArraySort.

(** Property keys that are strings. *)
Definition digit (c : ascii) : option N :=
  let n := N_of_ascii c in
  if ((48 <=? n) && (n <=? 57))%N then Some (n - 48)%N else None.

Fixpoint decimal (s : string) (acc : N) : option N :=
  match s with
  | EmptyString => Some acc
  | String c s' =>
      match digit c with
      | Some d => decimal s' (10 * acc + d)%N
      | None => None
      end
  end.

(** A string is an array index when it is the decimal numeral, without
    leading zeros, of an integer from 0 to [2^32 - 2]. *)
Definition string_index (s : string) : option N :=
  match s with
  | EmptyString => None
  | String c s' =>
      if Ascii.eqb c "0" then
        match s' with EmptyString => Some 0%N | _ => None end
      else
        match decimal s 0 with
        | Some n => if (n <? 2 ^ 32 - 1)%N then Some n else None
        | None => None
        end
  end.

(** The members of [Object.prototype]; each holds a function, and
    [__proto__] answers with [Object.prototype] itself. *)
Definition Object_prototype : list string :=
  [ "constructor"; "__defineGetter__"; "__defineSetter__"; "hasOwnProperty";
    "__lookupGetter__"; "__lookupSetter__"; "isPrototypeOf";
    "propertyIsEnumerable"; "toString"; "valueOf"; "__proto__";
    "toLocaleString" ]%string.

Definition string_inherited (s : string) : bool :=
  existsb (String.eqb s) Object_prototype.

(** Property keys that come from numbers.  The key of a number is its
    decimal string; equal numbers have equal strings and different
    ones different strings, so the number, a finite one as a reduced
    fraction, stands for the string. *)
Definition number_key (x : number) : number :=
  match x with
  | Finite q => Finite (Qred q)
  | _ => x
  end.

(** Two numbers have the same key. *)
Definition number_eqb (x y : number) : bool :=
  match x, y with
  | NaN, NaN => true
  | Infinity s, Infinity s' => Bool.eqb s s'
  | Finite p, Finite q => Qeq_bool p q
  | _, _ => false
  end.

Definition number_index (x : number) : option N :=
  match x with
  | Finite q =>
      if (Zpos (Qden q) =? 1)%Z && (0 <=? Qnum q)%Z && (Qnum q <? 2 ^ 32 - 1)%Z
      then Some (Z.to_N (Qnum q)) else None
  | _ => None
  end.

Definition number_inherited (x : number) : bool := false.

(** ** Aggregations over the current snapshot *)

(** [Array.prototype.reduce] with a callback that may throw. *)
Fixpoint reduce {A B : Type} (f : B -> A -> result B) (l : list A) (init : B)
  : result B :=
  match l with
  | [] => Ok init
  | x :: l' => acc ← f init x; reduce f l' acc
  end.

Module RoomTotals.
Record t := { total : number; count : Z }.
End RoomTotals.

Module Stats.
Record t := {
  totalListings : Z;
  avgPrice : number;
  avgPriceByBedrooms : props number number
}.
End Stats.

Module HostEntry.
Record t := { host_id : string; host_name : string; listingsCount : Z }.
End HostEntry.

Definition rooms_get := @get number RoomTotals.t number_eqb number_inherited.
Definition rooms_update := @update number RoomTotals.t number_eqb number_inherited.

(** A count as a number: an integer below [2 ^ 53], as the length of
    an array is, is a double. *)
Definition of_count (n : Z) : number := Finite (inject_Z n).

Section Statistics.
Context {A : Type} `{Numeric A}.

(** The callback of the second [reduce] of [computeStats]. *)
Definition byRooms_step (acc : props number RoomTotals.t) (item : A)
  : result (props number RoomTotals.t) :=
  let key := number_key (number_or_zero (bedrooms_of item)) in
  let acc1 :=
    match rooms_get acc key with
    | Absent =>
        set_own number_eqb acc key
          {| RoomTotals.total := Finite 0; RoomTotals.count := 0 |}
    | _ => acc
    end in
  acc2 ← rooms_update acc1 key
           (fun o => {| RoomTotals.total := number_add (RoomTotals.total o) (price_of item);
                        RoomTotals.count := RoomTotals.count o |});
  rooms_update acc2 key
    (fun o => {| RoomTotals.total := RoomTotals.total o;
                 RoomTotals.count := (RoomTotals.count o + 1)%Z |}).

(** The body of the [for ... of Object.entries(byRooms)] loop. *)
Definition average_step (out : props number number) (e : number * RoomTotals.t)
  : result (props number number) :=
  v ← js_div (RoomTotals.total (snd e)) (of_count (RoomTotals.count (snd e)));
  Ok (set_own number_eqb out (fst e) v).

(** The body of [computeStats], on the elements of [currentData]. *)
Definition stats_of (a : list A) : result Stats.t :=
  let totalListings := Z.of_nat (length a) in
  if (totalListings =? 0)%Z then
    Ok {| Stats.totalListings := 0; Stats.avgPrice := Finite 0;
          Stats.avgPriceByBedrooms := [] |}
  else
    let totalPrice :=
      fold_left (fun sum item => number_add sum (number_or_zero (price_of item)))
        a (Finite 0) in
    avgPrice ← js_div totalPrice (of_count totalListings);
    byRooms ← reduce byRooms_step a [];
    avgPriceByBedrooms ← reduce average_step (Object_entries number_index byRooms) [];
    Ok {| Stats.totalListings := totalListings; Stats.avgPrice := avgPrice;
          Stats.avgPriceByBedrooms := avgPriceByBedrooms |}.
End Statistics.

(** [computeStats()] *)
Definition computeStats : M Stats.t :=
  c ← get_currentData; a ← read_array c; lift (stats_of a).

Definition tally_get := @get string HostEntry.t String.eqb string_inherited.
Definition tally_update := @update string HostEntry.t String.eqb string_inherited.

(** The callback of the [reduce] of [computeHostRanking].  [!item.host_id]
    holds for a missing and for an empty host identifier. *)
Definition tally_step (acc : props string HostEntry.t) (item : Listing)
  : result (props string HostEntry.t) :=
  match host_id item with
  | None => Ok acc
  | Some h =>
      if String.eqb h EmptyString then Ok acc
      else
        let acc1 :=
          match tally_get acc h with
          | Absent =>
              set_own String.eqb acc h
                {| HostEntry.host_id := h;
                   HostEntry.host_name := default EmptyString (host_name item);
                   HostEntry.listingsCount := 0 |}
          | _ => acc
          end in
        tally_update acc1 h
          (fun e => {| HostEntry.host_id := HostEntry.host_id e;
                       HostEntry.host_name := HostEntry.host_name e;
                       HostEntry.listingsCount := (HostEntry.listingsCount e + 1)%Z |})
  end.

(** [(a, b) => b.listingsCount - a.listingsCount] *)
Definition by_count_desc (a b : HostEntry.t) : Z :=
  (HostEntry.listingsCount b - HostEntry.listingsCount a)%Z.

(** The body of [computeHostRanking], on the elements of [currentData]:
    the tally, [Object.values] of it, and the sort in place of that new
    array. *)
Definition ranking_of (a : list Listing) : result (list HostEntry.t) :=
  tally ← reduce tally_step a [];
  Ok (Array_sort by_count_desc (Object_values string_index tally)).

(** [computeHostRanking()] *)
Definition computeHostRanking : M (list HostEntry.t) :=
  c ← get_currentData; a ← read_array c; lift (ranking_of a).

Section BestValue.
Context {A : Type} `{Numeric A}.

(** The [for ... of] loop of [computeBestValue] with its two variables. *)
Fixpoint best_loop (items : list A) (best : option A) (bestRatio : number)
  : result (option A) :=
  match items with
  | [] => Ok best
  | item :: rest =>
      if number_gt (price_of item) (Finite 0) then
        ratio ← js_div (review_scores_rating_of item) (price_of item);
        if number_gt ratio bestRatio then best_loop rest (Some item) ratio
        else best_loop rest best bestRatio
      else best_loop rest best bestRatio
  end.

(** The body of [computeBestValue]: [best = null], [bestRatio = 0], the
    loop, [return best]. *)
Definition best_of (a : list A) : result (option A) :=
  best_loop a None (Finite 0).
End BestValue.

(** [computeBestValue()] *)
Definition computeBestValue : M (option Listing) :=
  c ← get_currentData; a ← read_array c; lift (best_of a).

(** ** Export *)

(** The values a caller can pass to [exportResults]. *)
#[warnings="-register-all"]
Inductive jsval :=
| VUndefined
| VNull
| VBool (b : bool)
| VNumber (n : number)
| VBigInt (z : Z)
| VString (s : string)
| VListings (l : loc)                       (* an array of listings *)
| VObject (fields : list (string * jsval)). (* any other object or array *)

(** [ToBoolean] *)
Definition truthy (v : jsval) : bool :=
  match v with
  | VUndefined | VNull => false
  | VBool b => b
  | VNumber NaN => false
  | VNumber (Infinity _) => true
  | VNumber (Finite q) => negb (Qeq_bool q 0)
  | VBigInt z => negb (z =? 0)%Z
  | VString s => negb (String.eqb s EmptyString)
  | VListings _ | VObject _ => true
  end.

(** A write the exporter is asked to perform: the destination and the
    value handed to [JSON.stringify]. *)
Record write := { filename : string; payload : jsval }.

(** [exportResults(filename, dataToExport = null)]; [None] is an omitted
    second argument.  The default applies to [undefined]. *)
Definition exportResults (file : string) (dataToExport : option jsval) : M write :=
  let dataToExport :=
    match dataToExport with
    | None | Some VUndefined => VNull
    | Some v => v
    end in
  c ← get_currentData;
  mret {| filename := file;
          payload := if truthy dataToExport then dataToExport else VListings c |}.

(** ** Decoding the rows of the file *)

(** The part of [loadCSV] that follows the parser: [records.map(...)].
    Reading and unzipping the file and splitting it into records belong
    to Node and to csv-parse; a record is the object the parser makes
    of one line, its columns as strings in the order of the header.
    Strings are sequences of code units below 256. *)

(** [s.replace(c, "")] for a search string of the one character [c]:
    the first occurrence goes, the others stay. *)
Fixpoint replace_first (c : ascii) (s : string) : string :=
  match s with
  | EmptyString => EmptyString
  | String c' s' =>
      if Ascii.eqb c' c then s' else String c' (replace_first c s')
  end.

(** White space and line terminators among the code units below 256:
    TAB, LF, VT, FF, CR, SP and NBSP. *)
Definition is_whitespace (c : ascii) : bool :=
  let n := N_of_ascii c in
  ((9 <=? n) && (n <=? 13) || (n =? 32) || (n =? 160))%N.

Fixpoint skip_whitespace (s : string) : string :=
  match s with
  | EmptyString => EmptyString
  | String c s' => if is_whitespace c then skip_whitespace s' else s
  end.

(** The longest run of decimal digits at the head of [s]: the numeral
    read after [acc], how many digits were read after [n], and what
    follows them. *)
Fixpoint read_digits (s : string) (acc : N) (n : nat) : N * nat * string :=
  match s with
  | EmptyString => (acc, n, s)
  | String c s' =>
      match digit c with
      | Some d => read_digits s' (10 * acc + d)%N (S n)
      | None => (acc, n, s)
      end
  end.

(** The exponent an [ExponentPart] at the head of [s] denotes, and 0
    when no complete one stands there. *)
Definition read_exponent (s : string) : Z :=
  match s with
  | String c s' =>
      if Ascii.eqb c "e" || Ascii.eqb c "E" then
        let '(negative, s'') :=
          match s' with
          | String c' t =>
              if Ascii.eqb c' "+" then (false, t)
              else if Ascii.eqb c' "-" then (true, t)
              else (false, s')
          | EmptyString => (false, s')
          end in
        let '(v, n, _) := read_digits s'' 0 0 in
        match n with
        | O => 0%Z
        | S _ => if negative then (- Z.of_N v)%Z else Z.of_N v
        end
      else 0%Z
  | EmptyString => 0%Z
  end.

Fixpoint string_prefix (p s : string) : bool :=
  match p, s with
  | EmptyString, _ => true
  | String c p', String c' s' => Ascii.eqb c c' && string_prefix p' s'
  | String _ _, EmptyString => false
  end.

(** The number for the longest prefix of [s] that is a
    [StrUnsignedDecimalLiteral]: digits with an optional fraction, or a
    dot with digits, and an optional exponent; or [Infinity].  The
    value the numeral denotes is rounded to the nearest double. *)
Definition unsigned_literal (s : string) : number :=
  if string_prefix "Infinity" s then Infinity false
  else
    let '(i, ni, r) := read_digits s 0 0 in
    let integer :=
      match ni with
      | O => NaN
      | S _ => round64 (inject_Z (Z.of_N i) * 10 ^ read_exponent r)
      end in
    match r with
    | String c r' =>
        if Ascii.eqb c "." then
          let '(m, nf, r'') := read_digits r' i 0 in
          match ni, nf with
          | O, O => NaN
          | _, _ =>
              round64 (inject_Z (Z.of_N m) / 10 ^ Z.of_nat nf
                       * 10 ^ read_exponent r'')
          end
        else integer
    | EmptyString => integer
    end.

Definition negate (x : number) : number :=
  match x with
  | NaN => NaN
  | Infinity s => Infinity (negb s)
  | Finite q => Finite (- q)
  end.

(** [parseFloat(s)] for a string [s]. *)
Definition parseFloat (s : string) : number :=
  match skip_whitespace s with
  | String c t =>
      if Ascii.eqb c "+" then unsigned_literal t
      else if Ascii.eqb c "-" then negate (unsigned_literal t)
      else unsigned_literal (String c t)
  | EmptyString => unsigned_literal EmptyString
  end.

(** A record of the parser. *)
Definition record := props string string.

Definition column (row : record) (name : string) : option string :=
  get_own String.eqb row name.

(** The three numbers [loadCSV] puts into the copy of a record. *)
Definition decode_price (row : record) : number :=
  match column row "price" with
  | Some text =>
      number_or_zero (parseFloat (replace_first "," (replace_first "$" text)))
  | None => number_or_zero NaN   (* [Number(undefined) || 0] *)
  end.

(** [parseFloat(item[name]) || 0]; [parseFloat(undefined)] reads the
    string [undefined]. *)
Definition decode_number (row : record) (name : string) : number :=
  match column row name with
  | Some text => number_or_zero (parseFloat text)
  | None => number_or_zero (parseFloat "undefined")
  end.

(** The item [loadCSV] makes of a record: every column as it is, and
    the three numbers. *)
Record item := {
  item_columns : record;
  item_price : number;
  item_bedrooms : number;
  item_review_scores_rating : number
}.

#[global] Instance item_numeric : Numeric item := {|
  price_of := item_price;
  bedrooms_of := item_bedrooms;
  review_scores_rating_of := item_review_scores_rating
|}.

Definition decode (row : record) : item :=
  {| item_columns := row;
     item_price := decode_price row;
     item_bedrooms := decode_number row "bedrooms";
     item_review_scores_rating := decode_number row "review_scores_rating" |}.

(** The array [loadCSV] returns for the records of a file. *)
Definition loadCSV (records : list record) : list item := map decode records.

(** ** The command line *)

(** [v >= lo && v <= hi] for a finite [v] and bounds that need not be
    finite. *)
Definition in_bounds (lo hi : number) (v : Q) : bool :=
  number_le lo (Finite v) && number_le (Finite v) hi.

(** The three filters with the bounds the command line passes, which
    may be [Infinity] or [NaN]. *)
Definition filterByPrice_bounds (this : objref) (minPrice maxPrice : number)
  : M objref :=
  filter_current (fun item => in_bounds minPrice maxPrice (price item)) this.

Definition filterByBedrooms_bounds (this : objref) (minRooms maxRooms : number)
  : M objref :=
  filter_current (fun item => in_bounds minRooms maxRooms (bedrooms item)) this.

Definition filterByReviewScore_bounds (this : objref) (minScore maxScore : number)
  : M objref :=
  filter_current
    (fun item => in_bounds minScore maxScore (review_scores_rating item)) this.

(** A string in a condition: the empty string is falsy. *)
Definition answered (s : string) : bool := negb (String.eqb s EmptyString).

(** The bounds one pair of answers of [handleFilter] gives, when at
    least one of the two is not blank. *)
Definition bounds_of (lo hi : string) : option (number * number) :=
  if answered lo || answered hi then
    Some (if answered lo then parseFloat lo else Finite 0,
          if answered hi then parseFloat hi else Infinity false)
  else None.

(** One [if (min || max) { ... }] block of [handleFilter]. *)
Definition filter_if_answered (f : number -> number -> M objref) (lo hi : string)
  : M unit :=
  match bounds_of lo hi with
  | Some (a, b) => _ ← f a b; mret tt
  | None => mret tt
  end.

(** [handleFilter()], with the six answers [askQuestion] resolves to
    (each one trimmed).  What it prints is outside the model. *)
Definition handleFilter (handler : objref)
    (minPrice maxPrice minRooms maxRooms minScore maxScore : string) : M unit :=
  _ ← filter_if_answered (filterByPrice_bounds handler) minPrice maxPrice;
  _ ← filter_if_answered (filterByBedrooms_bounds handler) minRooms maxRooms;
  filter_if_answered (filterByReviewScore_bounds handler) minScore maxScore.

(** The decimal string of a count. *)
Definition count_string (n : Z) : string :=
  NilZero.string_of_uint (N.to_uint (Z.to_N n)).

(** The line [handleRanking] prints for the host at [index]. *)
Definition ranking_line (index : nat) (host : HostEntry.t) : string :=
  (count_string (Z.of_nat index + 1) ++ ". " ++ HostEntry.host_name host
   ++ " (ID: " ++ HostEntry.host_id host ++ "), listings: "
   ++ count_string (HostEntry.listingsCount host))%string.

(** [handleRanking()]: the lines it prints, the heading first;
    [ranking.slice(0, 10)] is the first ten entries. *)
Definition handleRanking : M (list string) :=
  ranking ← computeHostRanking;
  mret ("== Host Ranking (Top 10) =="%string
        :: imap ranking_line (take 10 ranking)).

(** ** The impure counter *)



(** [handleExport()], with the answer to its prompt: the write it asks
    for, if any.  [exportResults] is called with the file name alone. *)
Definition handleExport (handler : objref) (fileName : string) : M (option write) :=
  if answered fileName then
    wr ← exportResults fileName None; mret (Some wr)
  else mret None.

(** * Vocabulary of the statements *)

#[global] Instance Qle_decision (a b : Q) : Decision (a <= b) :=
  match Qlt_le_dec b a with
  | left H => right (Qlt_not_le _ _ H)
  | right H => left H
  end.

(** [v] lies in the closed range from [lo] to [hi]. *)
Definition in_range (lo hi v : Q) : Prop := lo <= v /\ v <= hi.

#[global] Instance in_range_decision lo hi v : Decision (in_range lo hi v) :=
  and_dec _ _.

(** [next] holds exactly the elements of [prev] whose field [f] lies in
    the range, in the order they have in [prev]. *)
Definition range_filtered (f : Listing -> Q) (lo hi : Q) (prev next : list Listing)
  : Prop :=
  next = filter (fun item => in_range lo hi (f item)) prev
  /\ next `sublist_of` prev
  /\ (forall item, item ∈ next <-> item ∈ prev /\ in_range lo hi (f item))
  /\ (hi < lo -> next = []).

(** Sample listings for the closed instances of the statements. *)
Definition listing (host : string) (p b r : Q) : Listing :=
  {| host_id := Some host; host_name := Some host;
     price := p; bedrooms := b; review_scores_rating := r; columns := [] |}.

Definition sample_rows : list Listing :=
  [ listing "A" 100 1 90; listing "B" 200 1 80; listing "A" 300 2 95 ].


(** The snapshot a call leaves in [currentData], as a function of the
    original and of the current snapshot before the call. *)
Definition snapshot_after (orig cur : list Listing) (c : call) : list Listing :=
  match c with
  | FilterByPrice a b => filter (fun item => in_range a b (price item)) cur
  | FilterByBedrooms a b => filter (fun item => in_range a b (bedrooms item)) cur
  | FilterByReviewScore a b =>
      filter (fun item => in_range a b (review_scores_rating item)) cur
  | Reset => orig
  end.

(** The state of a pipeline loaded with [rows]: the array it was given
    is where it was and holds [rows]; [currentData] refers to another
    array, whose elements are a subsequence of [rows]. *)
Definition pipeline_inv (rows : list Listing) (w : world) : Prop :=
  listingData w = 0%nat
  /\ original w = Some rows
  /\ currentData w <> listingData w
  /\ exists cur, current w = Some cur /\ cur `sublist_of` rows.

(** Equality of numbers, finite ones as rationals. *)
Definition number_eq (x y : number) : Prop :=
  match x, y with
  | NaN, NaN => True
  | Infinity s, Infinity s' => s = s'
  | Finite p, Finite q => p == q
  | _, _ => False
  end.

(** [a > b] holds. *)
Definition exceeds (a b : number) : Prop := number_gt a b = true.

Section BestValueVocabulary.
Context {A : Type} `{Numeric A}.

(** The loop of [computeBestValue] divides for [item]: its price is
    greater than zero. *)
Definition qualifies (item : A) : Prop := exceeds (price_of item) (Finite 0).

(** The ratio the loop computes for a listing with a positive price:
    the quotient of the review score by the price, rounded to the
    nearest double. *)
Definition ratio (item : A) : number :=
  number_div (review_scores_rating_of item) (price_of item).

(** [r], between [pre] and [post], is the first listing that reaches
    the greatest ratio among those with a positive price, and that
    ratio is positive.  A ratio that is [NaN], the quotient of two
    infinities, takes part in no comparison. *)
Definition best_value_at (pre : list A) (r : A) (post : list A) : Prop :=
  qualifies r /\ exceeds (ratio r) (Finite 0)
  /\ (forall e, e ∈ pre -> qualifies e ->
        exceeds (ratio r) (ratio e) \/ ratio e = NaN)
  /\ (forall e, e ∈ post -> qualifies e -> ~ exceeds (ratio e) (ratio r)).

(** No listing with a positive price has a positive ratio. *)
Definition no_best_value (cur : list A) : Prop :=
  forall e, e ∈ cur -> qualifies e -> ~ exceeds (ratio e) (Finite 0).

(** What [best] and [bestRatio] hold once the loop of
    [computeBestValue] has gone through [seen]. *)
Definition best_so_far (seen : list A) (best : option A) (bestRatio : number)
  : Prop :=
  match best with
  | None => bestRatio = Finite 0 /\ no_best_value seen
  | Some r =>
      bestRatio = ratio r
      /\ exists pre post, seen = pre ++ r :: post /\ best_value_at pre r post
  end.

(** What [computeBestValue] returns for the snapshot [cur]. *)
Definition best_value_for (cur : list A) (res : option A) : Prop :=
  match res with
  | Some r => exists pre post, cur = pre ++ r :: post /\ best_value_at pre r post
  | None => no_best_value cur
  end
  /\ (no_best_value cur -> res = None)
  /\ ((forall e, e ∈ cur -> ~ qualifies e) -> res = None)
  /\ (cur = [] -> res = None).

(** [r] has a positive price and a positive ratio greater than the
    ratio of every listing of [pre] with a positive price. *)
Definition beats_earlier (pre : list A) (r : A) : Prop :=
  qualifies r /\ exceeds (ratio r) (Finite 0)
  /\ forall e, e ∈ pre -> qualifies e -> exceeds (ratio r) (ratio e).

(** [r] is the first listing of [cur], in order, that beats the ones
    before it. *)
Definition first_to_beat_earlier (cur : list A) (r : A) : Prop :=
  exists pre post,
    cur = pre ++ r :: post /\ beats_earlier pre r
    /\ forall pre' e post',
         cur = pre' ++ e :: post' -> (length pre' < length pre)%nat ->
         ~ beats_earlier pre' e.
End BestValueVocabulary.

(** No two own properties of an object have the same key. *)
Fixpoint nodup_keys {K V} (key_eqb : K -> K -> bool) (o : props K V) : Prop :=
  match o with
  | [] => True
  | p :: o' => get_own key_eqb o' (fst p) = None /\ nodup_keys key_eqb o'
  end.

#[global] Instance Qeq_decision (a b : Q) : Decision (a == b) := Qeq_dec a b.

#[global] Instance number_eq_decision (x y : number) : Decision (number_eq x y) :=
  match x as x', y as y' return Decision (number_eq x' y') with
  | NaN, NaN => left I
  | Infinity s, Infinity s' => decide (s = s')
  | Finite p, Finite q => Qeq_dec p q
  | _, _ => right (fun H : False => H)
  end.

Definition Qsum (l : list Q) : Q := foldr Qplus 0 l.

(** The arithmetic mean of a list of numbers that is not empty. *)
Definition mean (l : list Q) : Q := Qsum l / inject_Z (Z.of_nat (length l)).

(** The sum as [reduce] computes it from 0: one addition after the
    other, from left to right, each one rounded. *)
Definition float_sum (l : list number) : number := fold_left number_add l (Finite 0).

(** The mean as [computeStats] computes it for a list that is not
    empty: the rounded sum, divided by the length, rounded. *)
Definition float_mean (l : list number) : number :=
  number_div (float_sum l) (of_count (Z.of_nat (length l))).

(** The sum of every prefix of [l] is a double: no addition rounds. *)
Definition exact_sums (l : list Q) : Prop :=
  forall n : nat, number_eq (round64 (Qsum (take n l))) (Finite (Qsum (take n l))).

Section StatsVocabulary.
Context {A : Type} `{Numeric A}.

(** The bedroom count [computeStats] files a listing under:
    [item.bedrooms || 0]. *)
Definition bedroom_count (item : A) : number := number_or_zero (bedrooms_of item).

(** The listings of a snapshot with a given bedroom count. *)
Definition with_bedrooms (b : number) (cur : list A) : list A :=
  filter (fun item => number_eq (bedroom_count item) b) cur.

(** The sum and the number of the prices of [l], as [byRooms] holds
    them. *)
Definition totals_of (l : list A) (t : RoomTotals.t) : Prop :=
  RoomTotals.total t = float_sum (map price_of l)
  /\ RoomTotals.count t = Z.of_nat (length l).

(** [byRooms] once the second [reduce] of [computeStats] has gone
    through [seen]. *)
Definition byRooms_inv (seen : list A) (acc : props number RoomTotals.t) : Prop :=
  nodup_keys number_eqb acc
  /\ forall b,
       match get_own number_eqb acc b with
       | Some t => with_bedrooms b seen <> [] /\ totals_of (with_bedrooms b seen) t
       | None => with_bedrooms b seen = []
       end.

(** What [computeStats] returns for the snapshot [cur]: the number of
    listings, the mean price as it is computed (zero for no listing),
    and under each bedroom count that occurs the mean, as it is
    computed, of the prices of the listings with it.  The overall sum
    takes [item.price || 0], which differs from [item.price] for [NaN]
    alone. *)
Definition stats_for (cur : list A) (s : Stats.t) : Prop :=
  Stats.totalListings s = Z.of_nat (length cur)
  /\ (cur = [] ->
      s = {| Stats.totalListings := 0; Stats.avgPrice := Finite 0;
             Stats.avgPriceByBedrooms := [] |})
  /\ (cur <> [] ->
      Stats.avgPrice s
        = float_mean (map (fun item => number_or_zero (price_of item)) cur)
      /\ (Forall (fun item => price_of item <> NaN) cur ->
          Stats.avgPrice s = float_mean (map price_of cur)))
  /\ nodup_keys number_eqb (Stats.avgPriceByBedrooms s)
  /\ forall b,
       match get_own number_eqb (Stats.avgPriceByBedrooms s) b with
       | Some v =>
           with_bedrooms b cur <> []
           /\ v = float_mean (map price_of (with_bedrooms b cur))
       | None => with_bedrooms b cur = []
       end.
End StatsVocabulary.

(** The nearest double to [q], for a [q] within the range of the
    doubles. *)
Definition double (q : Q) : Q :=
  match round64 q with
  | Finite v => v
  | _ => 0
  end.

(** The listings of section 8 of the specification. *)
Definition stats_rows : list Listing :=
  [ listing "A" 100 1 0; listing "B" 200 1 0; listing "C" 300 2 0 ].

(** [a] stands before [b] in [l]. *)
Fixpoint before {A} (l : list A) (a b : A) : Prop :=
  match l with
  | [] => False
  | x :: l' => (x = a /\ b ∈ l') \/ before l' a b
  end.

(** The listings of a snapshot that belong to a host. *)
Definition with_host (h : string) (cur : list Listing) : list Listing :=
  filter (fun item => host_id item = Some h) cur.

(** The host identifiers [computeHostRanking] makes an entry for: the
    ones that are not empty and do not name a member of
    [Object.prototype]. *)
Definition ranked (h : string) : bool :=
  negb (String.eqb h EmptyString) && negb (string_inherited h).

(** The entry of host [h] whose listings are [l]: the name is that of
    the first of them. *)
Definition entry_of (h : string) (l : list Listing) : HostEntry.t :=
  {| HostEntry.host_id := h;
     HostEntry.host_name :=
       match l with
       | first :: _ => default EmptyString (host_name first)
       | [] => EmptyString
       end;
     HostEntry.listingsCount := Z.of_nat (length l) |}.

(** Host [h1] occurs in [cur] before any occurrence of host [h2]. *)
Definition first_seen_before (cur : list Listing) (h1 h2 : string) : Prop :=
  exists pre item post,
    cur = pre ++ item :: post /\ host_id item = Some h1 /\ with_host h2 pre = [].

(** The order in which an object with the host identifiers of [cur] as
    keys enumerates [h1] and [h2]: array indices first, ascending; the
    other keys after them, in the order of their first occurrence. *)
Definition enumerated_before (cur : list Listing) (h1 h2 : string) : Prop :=
  match string_index h1, string_index h2 with
  | Some i, Some j => (i < j)%N
  | Some _, None => True
  | None, Some _ => False
  | None, None => first_seen_before cur h1 h2
  end.

(** The tally once the [reduce] of [computeHostRanking] has gone
    through [seen]. *)
Definition tally_inv (seen : list Listing) (acc : props string HostEntry.t) : Prop :=
  nodup_keys String.eqb acc
  /\ (forall h,
        get_own String.eqb acc h =
          if ranked h then
            match with_host h seen with
            | [] => None
            | l => Some (entry_of h l)
            end
          else None)
  /\ (forall h1 h2, before (map fst acc) h1 h2 -> first_seen_before seen h1 h2).

(** [a] has at least as many listings as [b]. *)
Definition count_desc (a b : HostEntry.t) : Prop :=
  (HostEntry.listingsCount b <= HostEntry.listingsCount a)%Z.

(** The pipeline right after [AirBnBDataHandler] has loaded [rows]. *)
Definition world_of (rows : list Listing) : world :=
  {| heap := [rows; rows]; listingData := 0%nat; currentData := 1%nat |}.

(** The entries of the ranking of [cur]: one for each host identifier
    of [cur] that gets an entry, with the number of its listings and
    the name its first listing carries. *)
Definition ranking_for (cur : list Listing) (r : list HostEntry.t) : Prop :=
  NoDup (map HostEntry.host_id r)
  /\ forall e,
       e ∈ r <->
       exists h, ranked h = true /\ with_host h cur <> []
                 /\ e = entry_of h (with_host h cur).

(** The order of the ranking of [cur]: descending counts, and among
    equal counts the order in which the tally enumerates the hosts. *)
Definition ranking_order (cur : list Listing) (r : list HostEntry.t) : Prop :=
  StronglySorted count_desc r
  /\ forall e1 e2,
       before r e1 e2 ->
       HostEntry.listingsCount e1 = HostEntry.listingsCount e2 ->
       enumerated_before cur (HostEntry.host_id e1) (HostEntry.host_id e2).

(** Ties in the order in which the hosts were first seen. *)
Definition first_seen_ties (cur : list Listing) (r : list HostEntry.t) : Prop :=
  forall e1 e2,
    before r e1 e2 ->
    HostEntry.listingsCount e1 = HostEntry.listingsCount e2 ->
    first_seen_before cur (HostEntry.host_id e1) (HostEntry.host_id e2).

(** Host identifiers as listing files have them: decimal numerals. *)
Definition numeric_rows : list Listing :=
  [ listing "20" 100 1 90; listing "10" 200 1 80 ].

(** The hosts of the example of the specification, A, A, B, A, the empty identifier and C. *)
Definition example_rows : list Listing :=
  [ listing "A" 1 1 1; listing "A" 1 1 1; listing "B" 1 1 1;
    listing "A" 1 1 1; listing EmptyString 1 1 1; listing "C" 1 1 1 ].

(** A host whose identifier names a member of [Object.prototype]. *)
Definition inherited_rows : list Listing :=
  [ listing "constructor" 100 1 90 ].

Definition sample_world : world := world_of sample_rows.

(** Falsy values a caller may pass to [exportResults]: [undefined],
    [null], [0], [NaN], the empty string and [false]. *)
Definition falsy_literals : list jsval :=
  [ VUndefined; VNull; VNumber (Finite 0); VNumber NaN; VString EmptyString; VBool false ].

(** What [exportResults] hands to the serializer when it is called with
    [arg] while [currentData] is [c]. *)
Definition exported (c : loc) (arg : option jsval) (p : jsval) : Prop :=
  match arg with
  | None => p = VListings c
  | Some v =>
      (truthy v = false -> p = VListings c /\ p <> v)
      /\ (truthy v = true -> p = v)
  end.

(** The listings of the best-value example of the specification. *)
Definition best_rows : list Listing :=
  [ listing "A" 50 1 25; listing "B" 0 1 10; listing "C" 100 1 80 ].

(** Two listings whose ratios 5 / 100 and 4.9 / 98 round to the same
    double. *)
Definition tie_rows : list Listing :=
  [ listing "A" 100 1 5; listing "B" 98 1 (double (49 # 10)) ].

(** A listing whose ratio, the least positive double over 4, rounds to
    zero. *)
Definition tiny_rows : list Listing :=
  [ listing "A" 4 1 (pow2 (-1074)) ].

(** Listings at 0.1, 0.2 and 0.3: the doubles nearest to them. *)
Definition tenth_rows : list Listing :=
  [ listing "A" (double (1 # 10)) 1 0; listing "B" (double (2 # 10)) 1 0;
    listing "C" (double (3 # 10)) 1 0 ].

(** [item] passes the range test of the call [c]; every listing passes
    a reset. *)
Definition accepts (c : call) (item : Listing) : Prop :=
  match c with
  | FilterByPrice a b => in_range a b (price item)
  | FilterByBedrooms a b => in_range a b (bedrooms item)
  | FilterByReviewScore a b => in_range a b (review_scores_rating item)
  | Reset => True
  end.

#[global] Instance accepts_decision c item : Decision (accepts c item) :=
  match c with
  | FilterByPrice a b => in_range_decision a b (price item)
  | FilterByBedrooms a b => in_range_decision a b (bedrooms item)
  | FilterByReviewScore a b => in_range_decision a b (review_scores_rating item)
  | Reset => True_dec
  end.

Definition is_filter (c : call) : Prop :=
  match c with Reset => False | _ => True end.

(** The listing has a host identifier that gets an entry in the
    ranking. *)
Definition has_ranked_host (item : Listing) : bool :=
  match host_id item with
  | Some h => ranked h
  | None => false
  end.

(** The listing counts of a ranking, added up. *)
Definition total_count (r : list HostEntry.t) : Z :=
  foldr Z.add 0%Z (map HostEntry.listingsCount r).

(** A character a [StrDecimalLiteral] can begin with. *)
Definition numeral_start (c : ascii) : bool :=
  match digit c with
  | Some _ => true
  | None =>
      Ascii.eqb c "+" || Ascii.eqb c "-" || Ascii.eqb c "." || Ascii.eqb c "I"
  end.

(** After its leading white space the text is empty or begins with a
    character no numeral begins with. *)
Definition not_numeric (s : string) : Prop :=
  match skip_whitespace s with
  | EmptyString => True
  | String c _ => numeral_start c = false
  end.

(** The text does not go on with a digit. *)
Definition ends_digits (t : string) : Prop :=
  match t with
  | EmptyString => True
  | String c _ => digit c = None
  end.

(** The text does not go on with a digit or an exponent. *)
Definition ends_fraction (t : string) : Prop :=
  match t with
  | EmptyString => True
  | String c _ => digit c = None /\ Ascii.eqb c "e" = false /\ Ascii.eqb c "E" = false
  end.

(** The text does not go on with a digit, a dot or an exponent. *)
Definition ends_numeral (t : string) : Prop :=
  match t with
  | EmptyString => True
  | String c _ =>
      digit c = None /\ Ascii.eqb c "." = false
      /\ Ascii.eqb c "e" = false /\ Ascii.eqb c "E" = false
  end.

(** The test one pair of answers of [handleFilter] puts on a value:
    none when both answers are blank. *)
Definition pair_test (lo hi : string) (v : Q) : bool :=
  match bounds_of lo hi with
  | Some (a, b) => in_bounds a b v
  | None => true
  end.

(** An answer that is not blank and that [parseFloat] cannot read. *)
Definition unreadable (s : string) : Prop :=
  answered s = true /\ not_numeric s.

(** A numeral: a run of digits that is not empty, with its value. *)
Definition numeral (s : string) (n : N) : Prop :=
  s <> EmptyString /\ decimal s 0 = Some n.

(** * Properties *)

(** ** Order on numbers *)

Lemma range_test lo hi v :
  Qle_bool lo v && Qle_bool v hi = true <-> in_range lo hi v.
Proof.
  unfold in_range. rewrite andb_true_iff, !Qle_bool_iff. reflexivity.
Qed.

Lemma in_range_inverted lo hi v : hi < lo -> ~ in_range lo hi v.
Proof.
  intros Hlt [H1 H2].
  apply (Qlt_irrefl hi). eapply Qlt_le_trans; [exact Hlt|].
  eapply Qle_trans; eassumption.
Qed.

Lemma filter_inverted {A} (f : A -> Q) lo hi (l : list A) :
  hi < lo -> filter (fun item => in_range lo hi (f item)) l = [].
Proof.
  intros Hlt. induction l as [|x l IH]; [reflexivity|].
  rewrite filter_cons. destruct (decide _) as [Hin|_]; [|exact IH].
  exfalso. eapply in_range_inverted; eassumption.
Qed.

(** The callback form of [filter] against the relational one. *)
Lemma filter_test {A} (p : A -> bool) (P : A -> Prop) `{!forall x, Decision (P x)}
    (l : list A) :
  (forall x, p x = true <-> P x) -> List.filter p l = filter P l.
Proof.
  intros Hp. induction l as [|x l IH]; [reflexivity|].
  cbn [List.filter]. rewrite filter_cons.
  destruct (decide (P x)) as [HP | HP].
  - apply Hp in HP. rewrite HP, IH. reflexivity.
  - destruct (p x) eqn:E; [apply Hp in E; contradiction|exact IH].
Qed.

(** ** The heap under the methods *)

Lemma filter_current_run p this w cur :
  current w = Some cur ->
  filter_current p this w =
    Ok (this, {| heap := heap w ++ [List.filter p cur];
                 listingData := listingData w;
                 currentData := length (heap w) |}).
Proof.
  unfold current, filter_current. intros H.
  cbv [mbind M_mbind get_currentData read_array]. rewrite H. reflexivity.
Qed.

Lemma reset_run this w orig :
  original w = Some orig ->
  reset this w =
    Ok (this, {| heap := heap w ++ [orig];
                 listingData := listingData w;
                 currentData := length (heap w) |}).
Proof.
  unfold original, reset. intros H.
  cbv [mbind M_mbind get_listingData read_array]. rewrite H. reflexivity.
Qed.

Lemma current_fresh h a o :
  current {| heap := h ++ [a]; listingData := o; currentData := length h |} = Some a.
Proof. unfold current. cbn. apply list_lookup_middle. reflexivity. Qed.

Lemma original_kept h a o c orig :
  h !! o = Some orig ->
  original {| heap := h ++ [a]; listingData := o; currentData := c |} = Some orig.
Proof. unfold original. cbn. intros H. apply lookup_app_l_Some, H. Qed.

(** What a range filter leaves in [currentData]. *)
Lemma range_filter_spec (f : Listing -> Q) (p : Listing -> bool) lo hi this w cur :
  (forall item, p item = Qle_bool lo (f item) && Qle_bool (f item) hi) ->
  current w = Some cur ->
  exists w',
    filter_current p this w = Ok (this, w')
    /\ current w' = Some (filter (fun item => in_range lo hi (f item)) cur)
    /\ (hi < lo -> current w' = Some []).
Proof.
  intros Hp Hcur. eexists. split; [apply filter_current_run, Hcur|].
  rewrite current_fresh.
  assert (E : List.filter p cur = filter (fun item => in_range lo hi (f item)) cur).
  { apply filter_test. intros x. rewrite Hp. apply range_test. }
  split; [rewrite E; reflexivity|].
  intros Hlt. rewrite E, filter_inverted by exact Hlt. reflexivity.
Qed.

Lemma range_filtered_intro (f : Listing -> Q) lo hi prev :
  range_filtered f lo hi prev (filter (fun item => in_range lo hi (f item)) prev).
Proof.
  unfold range_filtered.
  split; [reflexivity|]. split; [apply sublist_filter|]. split.
  - intros item. rewrite list_elem_of_filter. tauto.
  - apply filter_inverted.
Qed.

(** C1. After [filterByPrice(a, b)] the current snapshot holds exactly
    the listings of the previous current snapshot whose price lies in
    the closed range from [a] to [b], in their previous order; with
    [a > b] it is empty, and the call returns normally.  The same holds
    of [filterByBedrooms] over [bedrooms] and of [filterByReviewScore]
    over [review_scores_rating]. *)
Theorem filter_range_contract (this : objref) (w : world) (cur : list Listing)
    (a b : Q) :
  current w = Some cur ->
  (exists w' next, filterByPrice this a b w = Ok (this, w')
     /\ current w' = Some next /\ range_filtered price a b cur next)
  /\ (exists w' next, filterByBedrooms this a b w = Ok (this, w')
     /\ current w' = Some next /\ range_filtered bedrooms a b cur next)
  /\ (exists w' next, filterByReviewScore this a b w = Ok (this, w')
     /\ current w' = Some next
     /\ range_filtered review_scores_rating a b cur next).
Proof.
  intros Hcur.
  split; [|split].
  - destruct (range_filter_spec price (price_in a b) a b this w cur)
      as (w' & Hrun & Hnext & _); [reflexivity|exact Hcur|].
    exists w', (filter (fun item => in_range a b (price item)) cur).
    auto using range_filtered_intro.
  - destruct (range_filter_spec bedrooms (bedrooms_in a b) a b this w cur)
      as (w' & Hrun & Hnext & _); [reflexivity|exact Hcur|].
    exists w', (filter (fun item => in_range a b (bedrooms item)) cur).
    auto using range_filtered_intro.
  - destruct (range_filter_spec review_scores_rating (review_in a b) a b this w cur)
      as (w' & Hrun & Hnext & _); [reflexivity|exact Hcur|].
    exists w', (filter (fun item => in_range a b (review_scores_rating item)) cur).
    auto using range_filtered_intro.
Qed.

Lemma filter_range_contract_witness :
  current sample_world = Some sample_rows
  /\ exists w' next, filterByPrice 0%nat 150 250 sample_world = Ok (0%nat, w')
       /\ current w' = Some next /\ range_filtered price 150 250 sample_rows next.
Proof.
  split; [reflexivity|].
  apply (filter_range_contract 0%nat sample_world sample_rows 150 250).
  reflexivity.
Defined.

(** ** The pipeline as a function of its calls *)

Lemma invoke_run this c w rows cur :
  original w = Some rows -> current w = Some cur ->
  invoke this c w =
    Ok (this, {| heap := heap w ++ [snapshot_after rows cur c];
                 listingData := listingData w;
                 currentData := length (heap w) |}).
Proof.
  intros Ho Hc. destruct c as [a b|a b|a b|]; cbn [invoke snapshot_after].
  - unfold filterByPrice. rewrite (filter_current_run _ _ _ _ Hc).
    rewrite (filter_test _ (fun item => in_range a b (price item))); [reflexivity|].
    intros x. apply range_test.
  - unfold filterByBedrooms. rewrite (filter_current_run _ _ _ _ Hc).
    rewrite (filter_test _ (fun item => in_range a b (bedrooms item))); [reflexivity|].
    intros x. apply range_test.
  - unfold filterByReviewScore. rewrite (filter_current_run _ _ _ _ Hc).
    rewrite (filter_test _ (fun item => in_range a b (review_scores_rating item)));
      [reflexivity|].
    intros x. apply range_test.
  - apply reset_run, Ho.
Qed.

Lemma snapshot_after_sublist rows cur c :
  cur `sublist_of` rows -> snapshot_after rows cur c `sublist_of` rows.
Proof.
  intros H. destruct c; cbn [snapshot_after]; try reflexivity;
    (etrans; [apply sublist_filter|exact H]).
Qed.

Lemma foldl_snapshot_sublist rows cs cur :
  cur `sublist_of` rows -> foldl (snapshot_after rows) cur cs `sublist_of` rows.
Proof.
  revert cur. induction cs as [|c cs IH]; intros cur H; cbn [foldl]; [exact H|].
  apply IH, snapshot_after_sublist, H.
Qed.

(** One call: the arrays that exist stay, the original stays where it
    is, and the new current array is a new object. *)
Lemma invoke_step this c w rows :
  pipeline_inv rows w ->
  exists w' cur,
    current w = Some cur
    /\ invoke this c w = Ok (this, w')
    /\ heap w `prefix_of` heap w'
    /\ current w' = Some (snapshot_after rows cur c)
    /\ pipeline_inv rows w'.
Proof.
  intros (Hl & Ho & Hne & cur & Hc & Hsub).
  eexists _, cur. split; [exact Hc|].
  split; [apply (invoke_run this c w rows cur Ho Hc)|].
  split; [cbn; apply prefix_app_r; reflexivity|].
  split; [apply current_fresh|].
  unfold pipeline_inv. cbn [listingData currentData].
  split; [exact Hl|]. split; [apply original_kept, Ho|].
  split.
  - unfold original in Ho. apply lookup_lt_Some in Ho. lia.
  - eexists. split; [apply current_fresh|]. apply snapshot_after_sublist, Hsub.
Qed.

Lemma chain_run this cs w rows cur :
  pipeline_inv rows w -> current w = Some cur ->
  exists w',
    chain this cs w = Ok (this, w')
    /\ heap w `prefix_of` heap w'
    /\ current w' = Some (foldl (snapshot_after rows) cur cs)
    /\ pipeline_inv rows w'.
Proof.
  revert w cur. induction cs as [|c cs IH]; intros w cur Hinv Hc.
  - exists w. cbn. repeat split; try assumption; try reflexivity; apply Hinv.
  - destruct (invoke_step this c w rows Hinv)
      as (w1 & cur1 & Hc1 & Hrun & Hpre & Hnext & Hinv1).
    rewrite Hc in Hc1. injection Hc1 as <-.
    destruct (IH w1 _ Hinv1 Hnext) as (w2 & Hrun2 & Hpre2 & Hnext2 & Hinv2).
    exists w2. split.
    + cbn [chain]. unfold mbind, M_mbind. rewrite Hrun. exact Hrun2.
    + split; [etrans; eassumption|]. split; assumption.
Qed.

Lemma AirBnBDataHandler_run rows :
  exists w, AirBnBDataHandler rows = Ok w
    /\ pipeline_inv rows w /\ current w = Some rows.
Proof.
  eexists. split; [reflexivity|]. split; [|reflexivity].
  unfold pipeline_inv. cbn. split; [reflexivity|]. split; [reflexivity|].
  split; [lia|]. exists rows. split; reflexivity.
Qed.

Lemma session_run this rows cs :
  exists w,
    session this rows cs = Ok (this, w)
    /\ pipeline_inv rows w
    /\ current w = Some (foldl (snapshot_after rows) rows cs).
Proof.
  destruct (AirBnBDataHandler_run rows) as (w0 & Hload & Hinv & Hc).
  destruct (chain_run this cs w0 rows rows Hinv Hc) as (w & Hrun & _ & Hcur & Hinv').
  exists w. split; [|split; assumption].
  unfold session. rewrite Hload. exact Hrun.
Qed.

(** C2. Whatever filters and resets a pipeline has received, the array
    it was loaded with is where it was and holds what it held, and
    [currentData] refers to another array whose elements are a
    subsequence of the original, in the original's order.  A further
    call leaves every array that exists as it is, and a filter computes
    the next current snapshot from the current one alone.  (Listings are
    values of the model: no method assigns to a field of one.) *)
Theorem pipeline_snapshots (this : objref) (rows : list Listing) (cs : list call) :
  exists w,
    session this rows cs = Ok (this, w)
    /\ pipeline_inv rows w
    /\ forall c, exists w' cur,
         current w = Some cur
         /\ invoke this c w = Ok (this, w')
         /\ heap w `prefix_of` heap w'
         /\ current w' = Some (snapshot_after rows cur c)
         /\ pipeline_inv rows w'.
Proof.
  destruct (session_run this rows cs) as (w & Hrun & Hinv & _).
  exists w. split; [exact Hrun|]. split; [exact Hinv|].
  intros c. apply invoke_step, Hinv.
Qed.

(** C6. After load and any chain of calls, [reset()] returns the
    handler it was called on and leaves in [currentData] a new array
    whose elements are those of the original, one for one and in
    order. *)
Theorem reset_restores (this : objref) (rows : list Listing) (cs : list call) :
  exists w w',
    session this rows cs = Ok (this, w)
    /\ reset this w = Ok (this, w')
    /\ current w' = Some rows
    /\ original w' = Some rows
    /\ currentData w' <> listingData w'.
Proof.
  destruct (session_run this rows cs) as (w & Hrun & Hinv & _).
  destruct (invoke_step this Reset w rows Hinv)
    as (w' & cur & _ & Hreset & _ & Hcur & Hinv').
  exists w, w'. split; [exact Hrun|]. split; [exact Hreset|].
  split; [exact Hcur|]. destruct Hinv' as (_ & Ho & Hne & _). split; assumption.
Qed.

Lemma filter_swap {A} (P1 P2 : A -> Prop)
    `{!forall x, Decision (P1 x)} `{!forall x, Decision (P2 x)} (l : list A) :
  filter P1 (filter P2 l) = filter P2 (filter P1 l).
Proof.
  rewrite !list_filter_filter. apply list_filter_iff. intros x. tauto.
Qed.

(** C7. From any current snapshot, [filterByPrice(a, b)] followed by
    [filterByBedrooms(c, d)] leaves the same current snapshot as the two
    calls in the other order: the listings whose price and whose
    bedroom count both lie in their ranges. *)
Theorem price_bedrooms_commute (this : objref) (w : world) (cur : list Listing)
    (a b c d : Q) :
  current w = Some cur ->
  exists w1 w2,
    chain this [FilterByPrice a b; FilterByBedrooms c d] w = Ok (this, w1)
    /\ chain this [FilterByBedrooms c d; FilterByPrice a b] w = Ok (this, w2)
    /\ current w1 = current w2
    /\ current w1 =
         Some (filter (fun item => in_range a b (price item)
                                   /\ in_range c d (bedrooms item)) cur).
Proof.
  intros Hc.
  cbn [chain invoke]. unfold mbind, M_mbind, filterByPrice, filterByBedrooms, mret, M_mret.
  rewrite !(filter_current_run _ _ _ _ Hc).
  rewrite !(filter_current_run _ _ _ _ (current_fresh _ _ _)).
  do 2 eexists. split; [reflexivity|]. split; [reflexivity|].
  rewrite !current_fresh.
  rewrite (filter_test (price_in a b) (fun item => in_range a b (price item)))
    by (intros x; apply range_test).
  rewrite !(filter_test (bedrooms_in c d) (fun item => in_range c d (bedrooms item)))
    by (intros x; apply range_test).
  rewrite (filter_test (price_in a b) (fun item => in_range a b (price item)))
    by (intros x; apply range_test).
  split.
  - f_equal. apply filter_swap.
  - f_equal. rewrite list_filter_filter. apply list_filter_iff. intros x. tauto.
Qed.

Lemma price_bedrooms_commute_witness :
  current sample_world = Some sample_rows
  /\ exists w1 w2,
    chain 0%nat [FilterByPrice 50 250; FilterByBedrooms 1 1] sample_world
      = Ok (0%nat, w1)
    /\ chain 0%nat [FilterByBedrooms 1 1; FilterByPrice 50 250] sample_world
      = Ok (0%nat, w2)
    /\ current w1 = current w2
    /\ current w1 =
         Some (filter (fun item => in_range 50 250 (price item)
                                   /\ in_range 1 1 (bedrooms item)) sample_rows).
Proof.
  split; [reflexivity|].
  apply (price_bedrooms_commute 0%nat sample_world sample_rows 50 250 1 1).
  reflexivity.
Defined.

(** ** Reading the current snapshot *)

Lemma read_current_run {A} (f : list Listing -> result A) w cur :
  current w = Some cur ->
  (c ← get_currentData; a ← read_array c; lift (f a)) w =
    match f cur with Ok x => Ok (x, w) | Throw e => Throw e end.
Proof.
  unfold current. intros H.
  cbv [mbind M_mbind get_currentData read_array lift]. rewrite H. reflexivity.
Qed.

(** ** The comparison of numbers *)

Lemma Qle_bool_false a b : Qle_bool a b = false <-> b < a.
Proof.
  split.
  - intros H. apply Qnot_le_lt. intros Hle. apply Qle_bool_iff in Hle. congruence.
  - intros H. destruct (Qle_bool a b) eqn:E; [|reflexivity].
    apply Qle_bool_iff in E. lra.
Qed.

Lemma number_gt_finite x y : number_gt (Finite x) (Finite y) = true <-> y < x.
Proof. cbn. rewrite negb_true_iff. apply Qle_bool_false. Qed.

Lemma number_gt_finite_false x y : number_gt (Finite x) (Finite y) = false <-> x <= y.
Proof. cbn. rewrite negb_false_iff. apply Qle_bool_iff. Qed.

Lemma number_gt_irrefl a : number_gt a a = false.
Proof.
  destruct a as [|[]|x]; try reflexivity.
  apply number_gt_finite_false. apply Qle_refl.
Qed.

Lemma number_gt_asym a b : number_gt a b = true -> number_gt b a = false.
Proof.
  destruct a as [|[]|x], b as [|[]|y]; try reflexivity; try discriminate.
  rewrite number_gt_finite, number_gt_finite_false. lra.
Qed.

(** From [a > b] and not [c > b]: [a > c], unless [c] is [NaN]. *)
Lemma number_gt_le_trans a b c :
  number_gt a b = true -> number_gt c b = false ->
  number_gt a c = true \/ c = NaN.
Proof.
  destruct a as [|[]|x], b as [|[]|y], c as [|[]|z];
    try discriminate; auto.
  rewrite !number_gt_finite, number_gt_finite_false. left. lra.
Qed.

Lemma exceeds_not_NaN a b : exceeds a b -> a <> NaN /\ b <> NaN.
Proof.
  unfold exceeds. destruct a as [|[]|x], b as [|[]|y];
    try discriminate; split; discriminate.
Qed.

Lemma not_exceeds a b : ~ exceeds a b <-> number_gt a b = false.
Proof. unfold exceeds. destruct (number_gt a b); split; congruence. Qed.

(** A divisor greater than zero is not zero. *)
Lemma js_div_positive a b : exceeds b (Finite 0) -> js_div a b = Ok (number_div a b).
Proof.
  unfold js_div, exceeds. destruct b as [|[]|y]; try discriminate; try reflexivity.
  rewrite number_gt_finite. intros Hy. cbn.
  destruct (Qeq_bool y 0) eqn:E; [|reflexivity].
  apply Qeq_bool_iff in E. lra.
Qed.

(** ** The best-value search *)

Section BestValueFacts.
Context {A : Type} `{Numeric A}.

(** The best ratio so far is a number, not below zero, and no listing
    seen so far has a ratio above it. *)
Lemma best_so_far_bound (seen : list A) best bestRatio :
  best_so_far seen best bestRatio ->
  ~ exceeds (Finite 0) bestRatio
  /\ forall e, e ∈ seen -> qualifies e -> ~ exceeds (ratio e) bestRatio.
Proof.
  destruct best as [r|]; cbn.
  - intros (-> & pre & post & -> & Hp & Hr & Hpre & Hpost).
    split; [apply not_exceeds, number_gt_asym, Hr|].
    intros e He Hq. apply elem_of_app in He as [He|He].
    + destruct (Hpre e He Hq) as [Hgt|HNaN].
      * apply not_exceeds, number_gt_asym, Hgt.
      * rewrite HNaN. intros Hn. apply exceeds_not_NaN in Hn as [Hn _]. congruence.
    + apply elem_of_cons in He as [->|He]; [|apply Hpost; assumption].
      apply not_exceeds, number_gt_irrefl.
  - intros (-> & Hnone). split; [|exact Hnone].
    apply not_exceeds, number_gt_irrefl.
Qed.

Lemma best_so_far_skip (seen : list A) best bestRatio item :
  best_so_far seen best bestRatio ->
  (qualifies item -> ~ exceeds (ratio item) bestRatio) ->
  best_so_far (seen ++ [item]) best bestRatio.
Proof.
  destruct best as [r|]; cbn.
  - intros (-> & pre & post & -> & Hp & Hr & Hpre & Hpost) Hitem.
    split; [reflexivity|]. exists pre, (post ++ [item]).
    split; [rewrite <- app_assoc; reflexivity|].
    repeat split; try assumption.
    intros e He Hq. apply elem_of_app in He as [He|He]; [auto|].
    apply list_elem_of_singleton in He as ->. auto.
  - intros (-> & Hnone) Hitem. split; [reflexivity|].
    intros e He Hq. apply elem_of_app in He as [He|He]; [auto|].
    apply list_elem_of_singleton in He as ->. auto.
Qed.

Lemma best_so_far_replace (seen : list A) best bestRatio item :
  best_so_far seen best bestRatio ->
  qualifies item -> exceeds (ratio item) bestRatio ->
  best_so_far (seen ++ [item]) (Some item) (ratio item).
Proof.
  intros Hinv Hq Hgt.
  destruct (best_so_far_bound _ _ _ Hinv) as [H0 Hle].
  cbn. split; [reflexivity|]. exists seen, [].
  split; [reflexivity|]. repeat split.
  - exact Hq.
  - apply not_exceeds in H0.
    destruct (number_gt_le_trans _ _ _ Hgt H0) as [Hpos|Hn]; [exact Hpos|discriminate].
  - intros e He Hqe. apply (number_gt_le_trans _ _ _ Hgt).
    apply not_exceeds, Hle; assumption.
  - intros e He. apply elem_of_nil in He. contradiction.
Qed.

Lemma best_loop_spec (items : list A) : forall seen best bestRatio,
  best_so_far seen best bestRatio ->
  exists res,
    best_loop items best bestRatio = Ok res
    /\ exists bestRatio', best_so_far (seen ++ items) res bestRatio'.
Proof.
  induction items as [|item rest IH]; intros seen best bestRatio Hinv.
  - exists best. split; [reflexivity|]. exists bestRatio.
    rewrite app_nil_r. exact Hinv.
  - cbn [best_loop].
    replace (seen ++ item :: rest) with ((seen ++ [item]) ++ rest)
      by (rewrite <- app_assoc; reflexivity).
    destruct (number_gt (price_of item) (Finite 0)) eqn:Hprice.
    + rewrite (js_div_positive _ _ Hprice). cbn.
      fold (ratio item).
      destruct (number_gt (ratio item) bestRatio) eqn:Hcmp.
      * apply IH, (best_so_far_replace _ _ _ _ Hinv Hprice Hcmp).
      * apply IH, best_so_far_skip; [exact Hinv|].
        intros _. apply not_exceeds, Hcmp.
    + apply IH, best_so_far_skip; [exact Hinv|].
      intros Hq. unfold qualifies, exceeds in Hq. congruence.
Qed.

Lemma best_so_far_start : best_so_far (@nil A) None (Finite 0).
Proof.
  cbn. split; [reflexivity|]. intros e He. apply elem_of_nil in He. contradiction.
Qed.

Lemma best_of_spec (cur : list A) :
  exists res, best_of cur = Ok res /\ best_value_for cur res.
Proof.
  destruct (best_loop_spec cur [] None (Finite 0) best_so_far_start)
    as (res & Hrun & br & Hinv).
  rewrite app_nil_l in Hinv.
  assert (Hnone : no_best_value cur -> res = None).
  { intros Hno. destruct res as [r|]; [|reflexivity]. exfalso.
    destruct Hinv as (_ & pre & post & -> & Hp & Hr & _).
    apply (Hno r); [|exact Hp|exact Hr].
    apply elem_of_app. right. apply elem_of_cons. auto. }
  exists res. split; [exact Hrun|]. split; [|split; [|split]].
  - destruct res as [r|]; apply Hinv.
  - exact Hnone.
  - intros Hall. apply Hnone. intros e He Hq. exfalso. exact (Hall e He Hq).
  - intros ->. apply Hnone. intros e He. apply elem_of_nil in He. contradiction.
Qed.
End BestValueFacts.

Lemma qualifies_listing (item : Listing) : qualifies item <-> 0 < price item.
Proof. unfold qualifies, exceeds. cbn [price_of Listing_numeric]. apply number_gt_finite. Qed.

Lemma computeBestValue_run (w : world) (cur : list Listing) :
  current w = Some cur ->
  exists res, computeBestValue w = Ok (res, w) /\ best_value_for cur res.
Proof.
  intros Hcur. destruct (best_of_spec cur) as (res & Hrun & Hres).
  exists res. split; [|exact Hres].
  unfold computeBestValue. rewrite (read_current_run best_of w cur Hcur), Hrun.
  reflexivity.
Qed.

(** C3. [computeBestValue()] goes through the current snapshot in
    order, skips the listings whose price is not greater than zero
    without dividing, and returns the listing whose ratio of review
    score to price, the quotient rounded to the nearest double as the
    loop computes it, is greater than zero, greater than the ratio of
    every listing before it with a positive price, and not less than
    the ratio of any such listing after it: the first listing to reach
    the greatest ratio.  It returns [null] exactly when no listing with
    a positive price has a positive ratio, as for the empty snapshot
    and for a snapshot without a positive price.  This holds for rows
    with any numbers, infinite ones included, and for the listings of
    a pipeline, which is left as it is. *)
Theorem best_value_contract :
  (forall (A : Type) (numbers : Numeric A) (cur : list A),
     exists res, best_of cur = Ok res /\ best_value_for cur res)
  /\ forall (w : world) (cur : list Listing),
       current w = Some cur ->
       exists res,
         computeBestValue w = Ok (res, w)
         /\ best_value_for cur res
         /\ ((forall e, e ∈ cur -> price e <= 0) -> res = None).
Proof.
  split; [intros A numbers cur; apply best_of_spec|].
  intros w cur Hcur.
  destruct (computeBestValue_run w cur Hcur) as (res & Hrun & Hres).
  exists res. split; [exact Hrun|]. split; [exact Hres|].
  intros Hall. apply (proj1 (proj2 (proj2 Hres))). intros e He Hq.
  apply qualifies_listing in Hq. specialize (Hall e He). lra.
Qed.

Lemma best_value_contract_witness :
  current (world_of best_rows) = Some best_rows
  /\ exists res, computeBestValue (world_of best_rows) = Ok (res, world_of best_rows)
       /\ best_value_for best_rows res.
Proof.
  split; [reflexivity|].
  destruct (proj2 best_value_contract (world_of best_rows) best_rows eq_refl)
    as (res & Hrun & Hres & _).
  exists res. split; assumption.
Defined.

(** The example of the specification: of the listings at 50 with score
    25, at 0 with score 10 and at 100 with score 80, the third is
    returned. *)
Example best_value_example :
  computeBestValue (world_of best_rows) =
    Ok (Some (listing "C" 100 1 80), world_of best_rows).
Proof. vm_compute. reflexivity. Qed.

(** The first listing of that example has a positive price and a
    positive ratio, and nothing stands before it: it is the first
    listing that beats the ones before it, and the third, which is
    returned, is not. *)
Lemma best_value_first_counterexample :
  exists r,
    computeBestValue (world_of best_rows) = Ok (Some r, world_of best_rows)
    /\ beats_earlier [] (listing "A" 50 1 25)
    /\ ~ first_to_beat_earlier best_rows r.
Proof.
  assert (Hfirst : beats_earlier [] (listing "A" 50 1 25)).
  { split; [reflexivity|]. split; [reflexivity|].
    intros e He. apply elem_of_nil in He. contradiction. }
  exists (listing "C" 100 1 80). split; [vm_compute; reflexivity|].
  split; [exact Hfirst|].
  intros (pre & post & Hsplit & _ & Hnone).
  destruct pre as [|x [|y [|z pre]]].
  - injection Hsplit as Hsplit _. discriminate.
  - injection Hsplit as _ Hsplit _. discriminate.
  - apply (Hnone [] (listing "A" 50 1 25)
             [listing "B" 0 1 10; listing "C" 100 1 80]);
      [reflexivity|cbn; lia|exact Hfirst].
  - injection Hsplit as _ _ _ Hsplit. destruct pre; discriminate.
Qed.

(** The quotients 5 / 100 and 4.9 / 98 are the same double: the second
    listing does not replace the first. *)
Example best_value_rounded_tie :
  computeBestValue (world_of tie_rows) =
    Ok (Some (listing "A" 100 1 5), world_of tie_rows)
  /\ 5 / 100 < double (49 # 10) / 98.
Proof. split; [vm_compute; reflexivity|]. vm_compute. reflexivity. Qed.

(** ** Objects as dictionaries *)

Section ObjectFacts.
Context {K V : Type}.
Variable key_eqb : K -> K -> bool.
Variable array_index : K -> option N.
Hypothesis eqb_refl : forall a, key_eqb a a = true.
Hypothesis eqb_sym : forall a b, key_eqb a b = key_eqb b a.
Hypothesis eqb_trans :
  forall a b c, key_eqb a b = true -> key_eqb b c = true -> key_eqb a c = true.

Lemma eqb_congr a b c : key_eqb a b = true -> key_eqb a c = key_eqb b c.
Proof.
  intros Hab. destruct (key_eqb b c) eqn:Hbc.
  - eapply eqb_trans; eassumption.
  - destruct (key_eqb a c) eqn:Hac; [|reflexivity].
    rewrite <- Hbc. symmetry. eapply eqb_trans; [|exact Hac].
    rewrite eqb_sym. exact Hab.
Qed.

Lemma get_own_congr (o : props K V) a b :
  key_eqb a b = true -> get_own key_eqb o a = get_own key_eqb o b.
Proof.
  intros Hab. induction o as [|[k v] o IH]; [reflexivity|]. cbn.
  rewrite (eqb_sym k a), (eqb_sym k b), (eqb_congr a b k Hab), IH. reflexivity.
Qed.

Lemma get_own_set_own (o : props K V) k v k' :
  get_own key_eqb (set_own key_eqb o k v) k' =
    if key_eqb k k' then Some v else get_own key_eqb o k'.
Proof.
  induction o as [|[k0 v0] o IH]; [reflexivity|]. cbn.
  destruct (key_eqb k0 k) eqn:E; cbn.
  - rewrite (eqb_congr k0 k k' E). destruct (key_eqb k k'); reflexivity.
  - rewrite IH. destruct (key_eqb k0 k') eqn:E'; [|reflexivity].
    destruct (key_eqb k k') eqn:E''; [|reflexivity].
    rewrite eqb_sym in E''. rewrite (eqb_trans _ _ _ E' E'') in E. discriminate.
Qed.

Lemma nodup_keys_set_own (o : props K V) k v :
  nodup_keys key_eqb o -> nodup_keys key_eqb (set_own key_eqb o k v).
Proof.
  induction o as [|[k0 v0] o IH]; cbn; [auto|].
  intros [Hget Hnd]. destruct (key_eqb k0 k) eqn:E; cbn.
  - auto.
  - split; [|auto]. rewrite get_own_set_own, eqb_sym, E. exact Hget.
Qed.

Lemma get_own_elem (o : props K V) k v :
  nodup_keys key_eqb o -> (k, v) ∈ o -> get_own key_eqb o k = Some v.
Proof.
  induction o as [|[k0 v0] o IH]; cbn; intros Hnd Hin.
  - apply elem_of_nil in Hin. contradiction.
  - destruct Hnd as [Hget Hnd]. apply elem_of_cons in Hin as [Heq|Hin].
    + injection Heq as <- <-. rewrite eqb_refl. reflexivity.
    + specialize (IH Hnd Hin). destruct (key_eqb k0 k) eqn:E; [|exact IH].
      rewrite (get_own_congr o k0 k E) in Hget. congruence.
Qed.

Lemma get_own_Some (o : props K V) b v :
  get_own key_eqb o b = Some v -> exists k, (k, v) ∈ o /\ key_eqb k b = true.
Proof.
  induction o as [|[k0 v0] o IH]; cbn; [discriminate|].
  destruct (key_eqb k0 b) eqn:E.
  - intros [= <-]. exists k0. split; [left|exact E].
  - intros H. destruct (IH H) as (k & Hin & Hk). exists k. split; [right|]; assumption.
Qed.

Lemma get_own_None (o : props K V) b k v :
  get_own key_eqb o b = None -> (k, v) ∈ o -> key_eqb k b = false.
Proof.
  induction o as [|[k0 v0] o IH]; cbn; intros Hget Hin.
  - apply elem_of_nil in Hin. contradiction.
  - destruct (key_eqb k0 b) eqn:E; [discriminate|].
    apply elem_of_cons in Hin as [Heq|Hin]; [injection Heq as -> ->; exact E|auto].
Qed.

(** Enumeration reorders the own properties and drops none. *)
Lemma elem_of_insert_index i (p : K * V) l x :
  x ∈ insert_index i p l <-> x = (i, p) \/ x ∈ l.
Proof.
  induction l as [|[j q] l IH]; cbn.
  - rewrite list_elem_of_singleton, elem_of_nil. tauto.
  - destruct (i <=? j)%N.
    + rewrite elem_of_cons. reflexivity.
    + rewrite !elem_of_cons, IH. tauto.
Qed.

Lemma elem_of_index_props (o : props K V) i p :
  (i, p) ∈ index_props array_index o <-> p ∈ o /\ array_index (fst p) = Some i.
Proof.
  induction o as [|q o IH]; cbn.
  - rewrite !elem_of_nil. tauto.
  - rewrite elem_of_cons. destruct (array_index (fst q)) as [j|] eqn:E.
    + rewrite elem_of_insert_index, IH. split.
      * intros [[= -> ->]|[H1 H2]]; auto.
      * intros [[->|H1] H2]; [left; congruence|auto].
    + rewrite IH. split; [tauto|]. intros [[->|H1] H2]; [congruence|auto].
Qed.

Lemma elem_of_Object_entries (o : props K V) p :
  p ∈ Object_entries array_index o <-> p ∈ o.
Proof.
  unfold Object_entries. rewrite elem_of_app, list_elem_of_fmap.
  rewrite list_elem_of_In, filter_In, <- list_elem_of_In.
  unfold is_index. split.
  - intros [([i q] & -> & H)|[H _]]; [|exact H].
    apply elem_of_index_props in H. apply H.
  - intros H. destruct (array_index (fst p)) as [i|] eqn:E.
    + left. exists (i, p). split; [reflexivity|].
      apply elem_of_index_props. auto.
    + right. auto.
Qed.
End ObjectFacts.

(** ** Statistics *)

Lemma Qeqb_refl a : Qeq_bool a a = true.
Proof. apply Qeq_bool_iff. reflexivity. Qed.

Lemma Qeqb_sym a b : Qeq_bool a b = Qeq_bool b a.
Proof.
  destruct (Qeq_bool b a) eqn:E.
  - apply Qeq_bool_iff. apply Qeq_bool_iff in E. symmetry. exact E.
  - destruct (Qeq_bool a b) eqn:E'; [|reflexivity].
    apply Qeq_bool_iff in E'. symmetry in E'. apply Qeq_bool_iff in E'. congruence.
Qed.

Lemma Qeqb_trans a b c :
  Qeq_bool a b = true -> Qeq_bool b c = true -> Qeq_bool a c = true.
Proof.
  rewrite !Qeq_bool_iff. intros H1 H2. rewrite H1. exact H2.
Qed.

Lemma number_eqb_eq x y : number_eqb x y = true <-> number_eq x y.
Proof.
  destruct x as [|[]|p], y as [|[]|q]; cbn; try tauto;
    try (split; [discriminate|contradiction || discriminate]).
  apply Qeq_bool_iff.
Qed.

Lemma number_eqb_refl a : number_eqb a a = true.
Proof. destruct a as [|[]|p]; try reflexivity. apply Qeqb_refl. Qed.

Lemma number_eqb_sym a b : number_eqb a b = number_eqb b a.
Proof. destruct a as [|[]|p], b as [|[]|q]; try reflexivity. apply Qeqb_sym. Qed.

Lemma number_eqb_trans a b c :
  number_eqb a b = true -> number_eqb b c = true -> number_eqb a c = true.
Proof.
  destruct a as [|[]|p], b as [|[]|q], c as [|[]|r]; try discriminate; try reflexivity.
  apply Qeqb_trans.
Qed.

Lemma number_key_eqb x : number_eqb (number_key x) x = true.
Proof.
  destruct x as [|[]|p]; try reflexivity.
  apply Qeq_bool_iff, Qred_correct.
Qed.

(** Equal rationals round to the same double. *)
Lemma round64_proper p q : p == q -> round64 p = round64 q.
Proof. intros E. unfold round64. rewrite (Qred_complete p q E). reflexivity. Qed.

Lemma round64_not_NaN q : round64 q <> NaN.
Proof.
  unfold round64. destruct (Qnum (Qred q)); [discriminate| |];
    destruct (round_magnitude _ _); discriminate.
Qed.

(** [item.price || 0] adds up like [item.price], but for [NaN]. *)
Lemma number_add_or_zero s x :
  x <> NaN -> number_add s (number_or_zero x) = number_add s x.
Proof.
  intros Hx. destruct x as [| |q]; [contradiction|reflexivity|]. cbn [number_or_zero].
  destruct (Qeq_bool q 0) eqn:E; [|reflexivity].
  apply Qeq_bool_iff in E. destruct s as [| |a]; try reflexivity.
  cbn [number_add]. apply round64_proper. rewrite E. reflexivity.
Qed.

Lemma float_sum_snoc l x : float_sum (l ++ [x]) = number_add (float_sum l) x.
Proof. unfold float_sum. rewrite fold_left_app. reflexivity. Qed.

Lemma Qsum_snoc l x : Qsum (l ++ [x]) == Qsum l + x.
Proof.
  induction l as [|y l IH]; cbn; [lra|]. fold (Qsum (l ++ [x])) (Qsum l).
  rewrite IH. lra.
Qed.

Lemma js_div_count a (n : Z) :
  n <> 0%Z -> js_div a (of_count n) = Ok (number_div a (of_count n)).
Proof.
  intros Hn. unfold js_div, of_count, is_zero.
  destruct (Qeq_bool (inject_Z n) 0) eqn:E; [|reflexivity].
  apply Qeq_bool_iff in E. unfold Qeq in E. cbn in E. lia.
Qed.

(** When no addition rounds, the sum is the sum and the mean is the
    arithmetic mean, rounded once. *)
Lemma exact_sums_prefix l x : exact_sums (l ++ [x]) -> exact_sums l.
Proof.
  intros Hex n. destruct (le_lt_dec n (length l)) as [Hle|Hlt].
  - specialize (Hex n). rewrite take_app_le in Hex by exact Hle. exact Hex.
  - specialize (Hex (length l)). rewrite take_app_length in Hex.
    rewrite take_ge by lia. exact Hex.
Qed.

Lemma float_sum_exact (l : list Q) :
  exact_sums l -> number_eq (float_sum (map Finite l)) (Finite (Qsum l)).
Proof.
  induction l as [|x l IH] using rev_ind; intros Hex.
  - cbn. reflexivity.
  - specialize (IH (exact_sums_prefix l x Hex)).
    rewrite map_app. cbn [map]. rewrite float_sum_snoc.
    destruct (float_sum (map Finite l)) as [| |s]; try contradiction.
    cbn in IH. cbn [number_add].
    rewrite (round64_proper (s + x) (Qsum (l ++ [x])))
      by (rewrite Qsum_snoc, IH; reflexivity).
    specialize (Hex (length (l ++ [x]))). rewrite take_ge in Hex by lia.
    exact Hex.
Qed.

Lemma float_mean_exact (l : list Q) :
  exact_sums l -> float_mean (map Finite l) = round64 (mean l).
Proof.
  intros Hex. pose proof (float_sum_exact l Hex) as Hs.
  unfold float_mean, mean. rewrite length_map.
  destruct (float_sum (map Finite l)) as [| |s]; try contradiction.
  cbn in Hs. cbn [number_div of_count]. apply round64_proper.
  rewrite Hs. reflexivity.
Qed.

Section StatsFacts.
Context {A : Type} `{Numeric A}.

Lemma totalPrice_sum (a : list A) (init : number) :
  fold_left (fun sum item => number_add sum (number_or_zero (price_of item))) a init
    = fold_left number_add (map (fun item => number_or_zero (price_of item)) a) init.
Proof.
  revert init. induction a as [|item a IH]; intros init; [reflexivity|].
  cbn [fold_left map]. apply IH.
Qed.

Lemma totalPrice_prices (a : list A) (init : number) :
  Forall (fun item => price_of item <> NaN) a ->
  fold_left number_add (map (fun item => number_or_zero (price_of item)) a) init
    = fold_left number_add (map price_of a) init.
Proof.
  intros Hall. revert init. induction Hall as [|item a Hitem _ IH]; intros init;
    [reflexivity|].
  cbn [fold_left map]. rewrite (number_add_or_zero _ _ Hitem). apply IH.
Qed.

Lemma with_bedrooms_snoc b (seen : list A) item :
  with_bedrooms b (seen ++ [item]) =
    with_bedrooms b seen ++ (if number_eqb (bedroom_count item) b then [item] else []).
Proof.
  unfold with_bedrooms. rewrite filter_app. f_equal.
  rewrite filter_cons, filter_nil.
  destruct (decide (number_eq (bedroom_count item) b)) as [E|E].
  - apply number_eqb_eq in E. rewrite E. reflexivity.
  - destruct (number_eqb (bedroom_count item) b) eqn:E'; [|reflexivity].
    apply number_eqb_eq in E'. contradiction.
Qed.

Lemma with_bedrooms_eq b b' (cur : list A) :
  number_eqb b b' = true -> with_bedrooms b cur = with_bedrooms b' cur.
Proof.
  intros E. unfold with_bedrooms. apply list_filter_iff. intros x.
  rewrite <- !number_eqb_eq.
  rewrite !(number_eqb_sym (bedroom_count x)).
  rewrite (eqb_congr number_eqb number_eqb_sym number_eqb_trans b b' _ E).
  reflexivity.
Qed.

Lemma totals_of_snoc (l : list A) item t :
  totals_of l t ->
  totals_of (l ++ [item])
    {| RoomTotals.total := number_add (RoomTotals.total t) (price_of item);
       RoomTotals.count := (RoomTotals.count t + 1)%Z |}.
Proof.
  intros [Ht Hc]. split; cbn.
  - rewrite map_app. cbn [map]. rewrite float_sum_snoc, Ht. reflexivity.
  - rewrite length_app, Hc. cbn. lia.
Qed.

(** One round of the callback: the entry of the listing's bedroom count
    is created if it is missing, and gains the price and one. *)
Lemma byRooms_step_run acc (item : A) :
  let key := number_key (bedroom_count item) in
  let t0 := default {| RoomTotals.total := Finite 0; RoomTotals.count := 0 |}
              (get_own number_eqb acc key) in
  nodup_keys number_eqb acc ->
  exists acc',
    byRooms_step acc item = Ok acc'
    /\ nodup_keys number_eqb acc'
    /\ forall b,
         get_own number_eqb acc' b =
           if number_eqb key b
           then Some {| RoomTotals.total := number_add (RoomTotals.total t0) (price_of item);
                        RoomTotals.count := (RoomTotals.count t0 + 1)%Z |}
           else get_own number_eqb acc b.
Proof.
  intros key t0 Hnd. subst t0.
  unfold byRooms_step, rooms_get, rooms_update, update, get, number_inherited.
  fold (bedroom_count item). fold key.
  destruct (get_own number_eqb acc key) as [t|] eqn:Hget; cbn [default].
  - rewrite Hget. cbn.
    rewrite (get_own_set_own number_eqb number_eqb_sym number_eqb_trans),
      number_eqb_refl. cbn.
    eexists. split; [reflexivity|]. split.
    + do 2 apply (nodup_keys_set_own number_eqb number_eqb_sym number_eqb_trans).
      exact Hnd.
    + intros b. rewrite !(get_own_set_own number_eqb number_eqb_sym number_eqb_trans).
      destruct (number_eqb key b); reflexivity.
  - rewrite (get_own_set_own number_eqb number_eqb_sym number_eqb_trans),
      number_eqb_refl. cbn.
    rewrite (get_own_set_own number_eqb number_eqb_sym number_eqb_trans),
      number_eqb_refl. cbn.
    eexists. split; [reflexivity|]. split.
    + do 3 apply (nodup_keys_set_own number_eqb number_eqb_sym number_eqb_trans).
      exact Hnd.
    + intros b. rewrite !(get_own_set_own number_eqb number_eqb_sym number_eqb_trans).
      destruct (number_eqb key b); reflexivity.
Qed.

Lemma byRooms_step_inv (seen : list A) acc item :
  byRooms_inv seen acc ->
  exists acc', byRooms_step acc item = Ok acc' /\ byRooms_inv (seen ++ [item]) acc'.
Proof.
  intros [Hnd Hinv].
  destruct (byRooms_step_run acc item Hnd) as (acc' & Hrun & Hnd' & Hget).
  exists acc'. split; [exact Hrun|]. split; [exact Hnd'|].
  intros b. rewrite Hget, with_bedrooms_snoc.
  set (key := number_key (bedroom_count item)).
  assert (Hkey : number_eqb key b = number_eqb (bedroom_count item) b).
  { apply (eqb_congr number_eqb number_eqb_sym number_eqb_trans).
    apply number_key_eqb. }
  rewrite <- Hkey. destruct (number_eqb key b) eqn:E.
  - split; [intros Hnil; apply app_eq_nil in Hnil as [_ Hnil]; discriminate|].
    apply totals_of_snoc.
    rewrite (get_own_congr number_eqb number_eqb_sym number_eqb_trans acc key b E).
    specialize (Hinv b). destruct (get_own number_eqb acc b) as [t|]; cbn.
    + apply Hinv.
    + rewrite Hinv. split; reflexivity.
  - rewrite app_nil_r. apply Hinv.
Qed.

Lemma reduce_byRooms (items : list A) : forall seen acc,
  byRooms_inv seen acc ->
  exists acc',
    reduce byRooms_step items acc = Ok acc' /\ byRooms_inv (seen ++ items) acc'.
Proof.
  induction items as [|item rest IH]; intros seen acc Hinv.
  - exists acc. rewrite app_nil_r. split; [reflexivity|exact Hinv].
  - destruct (byRooms_step_inv seen acc item Hinv) as (acc1 & Hstep & Hinv1).
    destruct (IH _ _ Hinv1) as (acc' & Hrun & Hinv').
    exists acc'. split.
    + cbn [reduce]. rewrite Hstep. exact Hrun.
    + rewrite <- app_assoc in Hinv'. exact Hinv'.
Qed.

Lemma mean_totals (l : list A) t :
  totals_of l t ->
  number_div (RoomTotals.total t) (of_count (RoomTotals.count t))
    = float_mean (map price_of l).
Proof.
  intros [Ht Hc]. unfold float_mean. rewrite length_map, Ht, Hc. reflexivity.
Qed.
End StatsFacts.

Lemma average_step_run out k t :
  RoomTotals.count t <> 0%Z ->
  average_step out (k, t) =
    Ok (set_own number_eqb out k
          (number_div (RoomTotals.total t) (of_count (RoomTotals.count t)))).
Proof.
  intros Hk. unfold average_step. cbn [fst snd].
  rewrite (js_div_count _ _ Hk). reflexivity.
Qed.

(** The loop over [Object.entries(byRooms)]: every key of [out] comes
    from an entry and holds that entry's quotient. *)
Lemma reduce_average es : forall out,
  nodup_keys number_eqb out ->
  (forall e, e ∈ es -> RoomTotals.count (snd e) <> 0%Z) ->
  exists out',
    reduce average_step es out = Ok out'
    /\ nodup_keys number_eqb out'
    /\ forall b,
         match get_own number_eqb out' b with
         | Some v =>
             (exists k t, (k, t) ∈ es /\ number_eqb k b = true
                /\ v = number_div (RoomTotals.total t) (of_count (RoomTotals.count t)))
             \/ get_own number_eqb out b = Some v
         | None =>
             get_own number_eqb out b = None
             /\ forall k t, (k, t) ∈ es -> number_eqb k b = false
         end.
Proof.
  induction es as [|[k t] es IH]; intros out Hnd Hcount.
  - exists out. split; [reflexivity|]. split; [exact Hnd|]. intros b.
    destruct (get_own number_eqb out b); [auto|].
    split; [reflexivity|]. intros k t Hin. apply elem_of_nil in Hin. contradiction.
  - assert (Hk : RoomTotals.count t <> 0%Z) by (apply (Hcount (k, t)); left).
    destruct (IH (set_own number_eqb out k
                    (number_div (RoomTotals.total t) (of_count (RoomTotals.count t)))))
      as (out' & Hrun & Hnd' & Hget).
    { apply (nodup_keys_set_own number_eqb number_eqb_sym number_eqb_trans), Hnd. }
    { intros e He. apply Hcount. right. exact He. }
    exists out'. split.
    + cbn [reduce]. rewrite (average_step_run _ _ _ Hk). exact Hrun.
    + split; [exact Hnd'|]. intros b. specialize (Hget b).
      rewrite (get_own_set_own number_eqb number_eqb_sym number_eqb_trans) in Hget.
      destruct (get_own number_eqb out' b) as [v|].
      * destruct Hget as [(k' & t' & Hin & Hkb & Hv)|Hget].
        -- left. exists k', t'. split; [right; exact Hin|auto].
        -- destruct (number_eqb k b) eqn:E; [|auto].
           injection Hget as <-. left. exists k, t. split; [left|auto].
      * destruct Hget as [Hget Hes].
        destruct (number_eqb k b) eqn:E; [discriminate|].
        split; [exact Hget|]. intros k' t' Hin.
        apply elem_of_cons in Hin as [[= -> ->]|Hin]; eauto.
Qed.

Lemma stats_of_spec {A : Type} `{Numeric A} (cur : list A) :
  exists s, stats_of cur = Ok s /\ stats_for cur s.
Proof.
  destruct cur as [|item rest] eqn:Hcur.
  { eexists. split; [reflexivity|]. unfold stats_for. cbn.
    repeat split; try reflexivity; tauto. }
  rewrite <- Hcur.
  assert (Hlen : Z.of_nat (length cur) <> 0%Z) by (subst cur; cbn; lia).
  destruct (reduce_byRooms cur [] []) as (byRooms & HbyRooms & Hnd & Hinv).
  { split; [exact I|]. intros b. reflexivity. }
  rewrite app_nil_l in Hinv.
  assert (Hentry : forall k t, (k, t) ∈ byRooms ->
            with_bedrooms k cur <> [] /\ totals_of (with_bedrooms k cur) t).
  { intros k t Hin.
    apply (get_own_elem number_eqb number_eqb_refl number_eqb_sym number_eqb_trans
             _ _ _ Hnd) in Hin.
    specialize (Hinv k). rewrite Hin in Hinv. exact Hinv. }
  destruct (reduce_average (Object_entries number_index byRooms) [])
    as (out & Hout & Hndout & Hget).
  { exact I. }
  { intros [k t] He. apply elem_of_Object_entries in He.
    destruct (Hentry k t He) as [Hne [_ Hc]]. cbn. rewrite Hc.
    destruct (with_bedrooms k cur); [contradiction|cbn; lia]. }
  eexists. split.
  { unfold stats_of. apply Z.eqb_neq in Hlen. rewrite Hlen.
    rewrite (js_div_count _ _ (proj1 (Z.eqb_neq _ _) Hlen)).
    cbn [mbind result_mbind result_bind]. rewrite HbyRooms.
    cbn [mbind result_mbind result_bind]. rewrite Hout. reflexivity. }
  unfold stats_for. cbn [Stats.totalListings Stats.avgPrice Stats.avgPriceByBedrooms].
  split; [reflexivity|]. split; [intros ->; discriminate|].
  split.
  { intros _. unfold float_mean, float_sum. rewrite !length_map, totalPrice_sum.
    split; [reflexivity|]. intros Hall.
    rewrite (totalPrice_prices cur _ Hall). reflexivity. }
  split; [exact Hndout|].
  intros b. specialize (Hget b).
  destruct (get_own number_eqb out b) as [v|].
  - destruct Hget as [(k & t & Hin & Hkb & ->)|Hget]; [|discriminate].
    apply elem_of_Object_entries in Hin. destruct (Hentry k t Hin) as [Hne Ht].
    rewrite <- (with_bedrooms_eq k b cur Hkb).
    split; [exact Hne|apply mean_totals, Ht].
  - destruct Hget as [_ Hnone]. specialize (Hinv b).
    destruct (get_own number_eqb byRooms b) as [t|] eqn:E; [|exact Hinv].
    apply get_own_Some in E as (k & Hin & Hkb).
    apply (elem_of_Object_entries number_index) in Hin.
    rewrite (Hnone k t Hin) in Hkb. discriminate.
Qed.

Lemma computeStats_run (w : world) (cur : list Listing) :
  current w = Some cur ->
  exists s, computeStats w = Ok (s, w) /\ stats_for cur s.
Proof.
  intros Hcur. destruct (stats_of_spec cur) as (s & Hrun & Hs).
  exists s. split; [|exact Hs].
  unfold computeStats. rewrite (read_current_run stats_of w cur Hcur), Hrun.
  reflexivity.
Qed.

Lemma prices_finite (l : list Listing) : map price_of l = map Finite (map price l).
Proof. rewrite map_map. reflexivity. Qed.

Lemma prices_not_NaN (l : list Listing) : Forall (fun item => price_of item <> NaN) l.
Proof. apply Forall_forall. intros x _. discriminate. Qed.

(** C5. [computeStats()] returns the number of listings of the current
    snapshot, the mean of their prices as binary64 arithmetic gives it,
    and an object that holds, under each bedroom count that occurs in
    the snapshot and under no other key, the mean, computed the same
    way, of the prices of the listings with exactly that bedroom count.
    The mean that is computed is the sum of the prices, added from left
    to right and rounded to the nearest double after each addition,
    divided by their number and rounded; when no addition rounds, it is
    the arithmetic mean rounded once.  For the empty snapshot the
    result is 0, 0 and the empty object, returned without dividing.
    This holds for rows with any numbers, and for the listings of a
    pipeline, which is left as it is. *)
Theorem stats_contract :
  (forall (A : Type) (numbers : Numeric A) (cur : list A),
     exists s, stats_of cur = Ok s /\ stats_for cur s)
  /\ forall (w : world) (cur : list Listing),
       current w = Some cur ->
       exists s,
         computeStats w = Ok (s, w)
         /\ stats_for cur s
         /\ (cur <> [] -> exact_sums (map price cur) ->
             Stats.avgPrice s = round64 (mean (map price cur)))
         /\ forall b v,
              get_own number_eqb (Stats.avgPriceByBedrooms s) b = Some v ->
              exact_sums (map price (with_bedrooms b cur)) ->
              v = round64 (mean (map price (with_bedrooms b cur))).
Proof.
  split; [intros A numbers cur; apply stats_of_spec|].
  intros w cur Hcur.
  destruct (computeStats_run w cur Hcur) as (s & Hrun & Hs).
  exists s. split; [exact Hrun|]. split; [exact Hs|].
  destruct Hs as (_ & _ & Havg & _ & Hrooms). split.
  - intros Hne Hex. rewrite (proj2 (Havg Hne) (prices_not_NaN cur)), prices_finite.
    apply float_mean_exact, Hex.
  - intros b v Hget Hex. specialize (Hrooms b). rewrite Hget in Hrooms.
    destruct Hrooms as [_ ->]. rewrite prices_finite.
    apply float_mean_exact, Hex.
Qed.

Lemma stats_contract_witness :
  current (world_of stats_rows) = Some stats_rows
  /\ exists s, computeStats (world_of stats_rows) = Ok (s, world_of stats_rows)
       /\ stats_for stats_rows s
       /\ Stats.avgPrice s = round64 (mean (map price stats_rows)).
Proof.
  split; [reflexivity|].
  destruct (proj2 stats_contract (world_of stats_rows) stats_rows eq_refl)
    as (s & Hrun & Hs & Havg & _).
  exists s. split; [exact Hrun|]. split; [exact Hs|].
  apply Havg; [discriminate|].
  intros [|[|[|[|n]]]]; vm_compute; reflexivity.
Defined.

(** The example of the specification: three listings at 100, 200 and
    300 with 1, 1 and 2 bedrooms. *)
Example stats_example :
  stats_of stats_rows =
    Ok {| Stats.totalListings := 3; Stats.avgPrice := Finite 200;
          Stats.avgPriceByBedrooms := [(Finite 1, Finite 150); (Finite 2, Finite 300)] |}.
Proof. vm_compute. reflexivity. Qed.

(** For listings at 0.1, 0.2 and 0.3 the first sum is rounded up and
    the average that is returned is the double after 0.2,
    0.20000000000000004: it is not the arithmetic mean of the three
    prices, and not the double nearest to that mean, which is 0.2. *)
Lemma stats_mean_counterexample :
  exists s,
    computeStats (world_of tenth_rows) = Ok (s, world_of tenth_rows)
    /\ number_eq (Stats.avgPrice s) (Finite (double (2 # 10) + pow2 (-55)))
    /\ round64 (mean (map price tenth_rows)) = Finite (double (2 # 10))
    /\ ~ number_eq (Stats.avgPrice s) (Finite (mean (map price tenth_rows)))
    /\ ~ number_eq (Stats.avgPrice s) (round64 (mean (map price tenth_rows))).
Proof.
  eexists. split; [vm_compute; reflexivity|].
  split; [vm_compute; reflexivity|]. split; [vm_compute; reflexivity|].
  split; intros Heq; vm_compute in Heq; discriminate.
Qed.

(** ** Order of the elements of a list *)

Lemma before_elem {A} (l : list A) a b : before l a b -> a ∈ l /\ b ∈ l.
Proof.
  induction l as [|x l IH]; cbn; [tauto|].
  intros [[-> Hb]|H].
  - split; [left|right; exact Hb].
  - destruct (IH H). split; right; assumption.
Qed.

Lemma before_app {A} (l1 l2 : list A) a b :
  before (l1 ++ l2) a b <->
  before l1 a b \/ (a ∈ l1 /\ b ∈ l2) \/ before l2 a b.
Proof.
  induction l1 as [|x l1 IH]; cbn.
  - split; [auto|]. intros [[]|[[H _]|H]]; [|exact H].
    apply elem_of_nil in H. contradiction.
  - rewrite IH, elem_of_app. split.
    + intros [[-> [H|H]]|[H|[[H1 H2]|H]]]; auto.
      * right. left. split; [left|exact H].
      * right. left. split; [right; exact H1|exact H2].
    + intros [[[-> H]|H]|[[H1 H2]|H]]; auto.
      apply elem_of_cons in H1 as [->|H1]; auto.
Qed.

Lemma before_map {A B} (f : A -> B) (l : list A) a b :
  before (map f l) a b -> exists x y, before l x y /\ f x = a /\ f y = b.
Proof.
  induction l as [|z l IH]; cbn; [tauto|].
  intros [[Hz Hb]|H].
  - apply (list_elem_of_fmap f) in Hb as (y & -> & Hy).
    exists z, y. auto.
  - destruct (IH H) as (x & y & Hxy & Hx & Hy). exists x, y. auto.
Qed.

Lemma map_before {A B} (f : A -> B) (l : list A) x y :
  before l x y -> before (map f l) (f x) (f y).
Proof.
  induction l as [|z l IH]; cbn; [tauto|].
  intros [[-> Hy]|H]; [left|right; auto].
  split; [reflexivity|]. apply (list_elem_of_fmap_2 f), Hy.
Qed.

Lemma before_filter {A} (p : A -> bool) (l : list A) a b :
  before (List.filter p l) a b -> before l a b.
Proof.
  induction l as [|x l IH]; cbn; [tauto|].
  destruct (p x); cbn.
  - intros [[-> Hb]|H]; [left|right; auto].
    split; [reflexivity|]. apply list_elem_of_In, filter_In in Hb.
    apply list_elem_of_In, Hb.
  - auto.
Qed.

(** ** Keys that are array indices *)

Lemma digit_bound c d : digit c = Some d -> (d < 10)%N.
Proof.
  unfold digit. destruct (_ && _) eqn:E; [|discriminate].
  intros [= <-]. apply andb_true_iff in E as [E1 E2].
  apply N.leb_le in E1, E2. lia.
Qed.

Lemma digit_inj c1 c2 d : digit c1 = Some d -> digit c2 = Some d -> c1 = c2.
Proof.
  unfold digit.
  destruct ((48 <=? N_of_ascii c1)%N && _) eqn:E1; [|discriminate].
  destruct ((48 <=? N_of_ascii c2)%N && _) eqn:E2; [|discriminate].
  intros [= H1] [= H2].
  apply andb_true_iff in E1 as [E1 _], E2 as [E2 _].
  apply N.leb_le in E1, E2.
  rewrite <- (ascii_N_embedding c1), <- (ascii_N_embedding c2). f_equal. lia.
Qed.

(** The numeral [s] read after [acc]: [acc] shifted by the length of
    [s], plus less than one unit of that shift. *)
Lemma decimal_bounds s : forall acc n,
  decimal s acc = Some n ->
  (acc * 10 ^ N.of_nat (String.length s) <= n
   < (acc + 1) * 10 ^ N.of_nat (String.length s))%N.
Proof.
  induction s as [|c s IH]; intros acc n; cbn [decimal String.length].
  - intros [= <-]. cbn. lia.
  - destruct (digit c) as [d|] eqn:Hd; [|discriminate].
    intros H. apply IH in H. apply digit_bound in Hd.
    rewrite Nat2N.inj_succ, N.pow_succ_r'. nia.
Qed.

Lemma decimal_inj s1 : forall s2 a1 a2 n,
  String.length s1 = String.length s2 ->
  decimal s1 a1 = Some n -> decimal s2 a2 = Some n -> a1 = a2 /\ s1 = s2.
Proof.
  induction s1 as [|c1 s1 IH]; intros [|c2 s2] a1 a2 n; cbn [String.length decimal];
    try discriminate.
  - intros _ [= <-] [= <-]. auto.
  - intros [= Hlen].
    destruct (digit c1) as [d1|] eqn:Hd1; [|discriminate].
    destruct (digit c2) as [d2|] eqn:Hd2; [|discriminate].
    intros H1 H2. destruct (IH _ _ _ _ Hlen H1 H2) as [Hacc ->].
    pose proof (digit_bound _ _ Hd1). pose proof (digit_bound _ _ Hd2).
    assert (d1 = d2) by lia. subst d2.
    assert (a1 = a2) by lia.
    rewrite (digit_inj _ _ _ Hd1 Hd2). auto.
Qed.

Lemma string_index_magnitude s n :
  string_index s = Some n ->
  (s = "0"%string /\ n = 0%N)
  \/ (decimal s 0 = Some n
      /\ exists k, String.length s = S k /\ (10 ^ N.of_nat k <= n < 10 ^ N.of_nat (S k))%N).
Proof.
  destruct s as [|c s']; cbn [string_index]; [discriminate|].
  destruct (Ascii.eqb c "0") eqn:Ec.
  - destruct s'; [|discriminate]. intros [= <-]. apply Ascii.eqb_eq in Ec as ->. auto.
  - destruct (decimal (String c s') 0) as [m|] eqn:Hdec; [|discriminate].
    destruct (m <? 2 ^ 32 - 1)%N; [|discriminate]. intros [= <-].
    right. split; [reflexivity|]. exists (String.length s'). split; [reflexivity|].
    cbn [decimal] in Hdec. destruct (digit c) as [d|] eqn:Hd; [|discriminate].
    assert (d <> 0%N).
    { intros ->. assert (Hc : c = "0"%char) by (apply (digit_inj c "0" 0%N Hd); reflexivity).
      subst c. discriminate. }
    pose proof (digit_bound _ _ Hd). apply decimal_bounds in Hdec.
    rewrite Nat2N.inj_succ, N.pow_succ_r'. nia.
Qed.

(** Two keys that denote the same array index are the same key. *)
Lemma string_index_inj s1 s2 n :
  string_index s1 = Some n -> string_index s2 = Some n -> s1 = s2.
Proof.
  intros H1 H2.
  apply string_index_magnitude in H1 as [[-> ->]|(Hd1 & k1 & Hl1 & Hb1)];
    apply string_index_magnitude in H2 as [[-> Hn]|(Hd2 & k2 & Hl2 & Hb2)].
  - reflexivity.
  - exfalso. assert (0 < 10 ^ N.of_nat k2)%N by (apply N.neq_0_lt_0, N.pow_nonzero; lia).
    lia.
  - exfalso. subst n.
    assert (0 < 10 ^ N.of_nat k1)%N by (apply N.neq_0_lt_0, N.pow_nonzero; lia).
    lia.
  - assert (k1 = k2).
    { destruct (Nat.lt_trichotomy k1 k2) as [Hlt|[Heq|Hlt]]; [|exact Heq|]; exfalso.
      - assert (10 ^ N.of_nat (S k1) <= 10 ^ N.of_nat k2)%N
          by (apply N.pow_le_mono_r; lia).
        lia.
      - assert (10 ^ N.of_nat (S k2) <= 10 ^ N.of_nat k1)%N
          by (apply N.pow_le_mono_r; lia).
        lia. }
    subst k2.
    apply (decimal_inj s1 s2 0%N 0%N n); [congruence|assumption|assumption].
Qed.

(** ** The tally of hosts *)

Lemma keys_set_own_Some {K V} (key_eqb : K -> K -> bool) (o : props K V) k v v0 :
  get_own key_eqb o k = Some v0 -> map fst (set_own key_eqb o k v) = map fst o.
Proof.
  induction o as [|[k' v'] o IH]; cbn; [discriminate|].
  destruct (key_eqb k' k); cbn; [reflexivity|].
  intros H. rewrite (IH H). reflexivity.
Qed.

Lemma keys_set_own_None {K V} (key_eqb : K -> K -> bool) (o : props K V) k v :
  get_own key_eqb o k = None -> map fst (set_own key_eqb o k v) = map fst o ++ [k].
Proof.
  induction o as [|[k' v'] o IH]; cbn; [reflexivity|].
  destruct (key_eqb k' k); cbn; [discriminate|].
  intros H. rewrite (IH H). reflexivity.
Qed.

Lemma String_eqb_trans a b c :
  String.eqb a b = true -> String.eqb b c = true -> String.eqb a c = true.
Proof. rewrite !String.eqb_eq. congruence. Qed.

Lemma tally_get_set (o : props string HostEntry.t) k v k' :
  get_own String.eqb (set_own String.eqb o k v) k' =
    if String.eqb k k' then Some v else get_own String.eqb o k'.
Proof. apply get_own_set_own; [apply String.eqb_sym|apply String_eqb_trans]. Qed.

Lemma tally_nodup_set (o : props string HostEntry.t) k v :
  nodup_keys String.eqb o -> nodup_keys String.eqb (set_own String.eqb o k v).
Proof. apply nodup_keys_set_own; [apply String.eqb_sym|apply String_eqb_trans]. Qed.

Lemma tally_get_elem (o : props string HostEntry.t) k v :
  nodup_keys String.eqb o -> (k, v) ∈ o -> get_own String.eqb o k = Some v.
Proof.
  apply get_own_elem;
    [apply String.eqb_refl|apply String.eqb_sym|apply String_eqb_trans].
Qed.

Lemma with_host_snoc h seen item :
  with_host h (seen ++ [item]) =
    with_host h seen ++ (if decide (host_id item = Some h) then [item] else []).
Proof.
  unfold with_host. rewrite filter_app. reflexivity.
Qed.

Lemma with_host_snoc_other h seen item :
  host_id item <> Some h -> with_host h (seen ++ [item]) = with_host h seen.
Proof.
  intros H. rewrite with_host_snoc. destruct (decide _); [contradiction|].
  apply app_nil_r.
Qed.

Lemma with_host_snoc_same h seen item :
  host_id item = Some h -> with_host h (seen ++ [item]) = with_host h seen ++ [item].
Proof.
  intros H. rewrite with_host_snoc. destruct (decide _); [reflexivity|contradiction].
Qed.

Lemma first_seen_before_snoc seen item h1 h2 :
  first_seen_before seen h1 h2 -> first_seen_before (seen ++ [item]) h1 h2.
Proof.
  intros (pre & it & post & -> & Hh & Hpre).
  exists pre, it, (post ++ [item]). rewrite <- app_assoc. auto.
Qed.

(** A host that has listings in [seen] was seen before a host that has
    none. *)
Lemma first_seen_before_new seen item h1 h2 :
  with_host h1 seen <> [] -> with_host h2 seen = [] ->
  first_seen_before (seen ++ [item]) h1 h2.
Proof.
  intros H1 H2.
  destruct (with_host h1 seen) as [|it l] eqn:E; [contradiction|].
  assert (Hin : it ∈ with_host h1 seen) by (rewrite E; left).
  unfold with_host in Hin. apply list_elem_of_filter in Hin as [Hh Hin].
  apply list_elem_of_split in Hin as (pre & post & ->).
  exists pre, it, (post ++ [item]). rewrite <- app_assoc.
  split; [reflexivity|]. split; [exact Hh|].
  unfold with_host in H2. rewrite filter_app in H2.
  apply app_eq_nil in H2. apply H2.
Qed.

Lemma ranked_true h :
  ranked h = true <-> h <> EmptyString /\ string_inherited h = false.
Proof.
  unfold ranked. rewrite andb_true_iff, !negb_true_iff, String.eqb_neq. reflexivity.
Qed.

(** A listing whose host gets no entry leaves the tally as it is. *)
Lemma tally_inv_skip seen acc item :
  (forall h, ranked h = true -> host_id item <> Some h) ->
  tally_inv seen acc -> tally_inv (seen ++ [item]) acc.
Proof.
  intros Hskip (Hnd & Hget & Hord). split; [exact Hnd|]. split.
  - intros h. rewrite Hget. destruct (ranked h) eqn:E; [|reflexivity].
    rewrite (with_host_snoc_other h seen item (Hskip h E)). reflexivity.
  - intros h1 h2 H. apply first_seen_before_snoc, Hord, H.
Qed.

(** One round of the callback keeps the tally in step with the
    listings gone through, and never throws. *)
Lemma tally_step_inv seen acc item :
  tally_inv seen acc ->
  exists acc', tally_step acc item = Ok acc' /\ tally_inv (seen ++ [item]) acc'.
Proof.
  intros Hinv. unfold tally_step.
  destruct (host_id item) as [h0|] eqn:Hh.
  2: { exists acc. split; [reflexivity|]. apply tally_inv_skip; [|exact Hinv].
       intros h _. rewrite Hh. discriminate. }
  destruct (String.eqb h0 EmptyString) eqn:Hempty.
  { apply String.eqb_eq in Hempty as ->. exists acc. split; [reflexivity|].
    apply tally_inv_skip; [|exact Hinv].
    intros h Hr. rewrite Hh. intros [= <-]. apply ranked_true in Hr. tauto. }
  apply String.eqb_neq in Hempty.
  destruct (string_inherited h0) eqn:Hinh.
  - assert (Hr : ranked h0 = false).
    { unfold ranked. rewrite Hinh. apply andb_false_r. }
    destruct Hinv as (Hnd & Hget & Hord).
    pose proof (Hget h0) as Hget0. rewrite Hr in Hget0.
    cbv zeta. unfold tally_get, tally_update, update, get.
    rewrite Hget0, Hinh. cbn. rewrite Hget0.
    exists acc. split; [reflexivity|].
    apply tally_inv_skip; [|repeat split; assumption].
    intros h Hrk. rewrite Hh. intros [= <-]. congruence.
  - assert (Hr : ranked h0 = true) by (apply ranked_true; auto).
    destruct Hinv as (Hnd & Hget & Hord).
    pose proof (Hget h0) as Hget0. rewrite Hr in Hget0.
    cbv zeta. unfold tally_get, tally_update, update, get.
    destruct (with_host h0 seen) as [|first rest] eqn:Hwh.
    + rewrite Hget0, Hinh. rewrite tally_get_set, String.eqb_refl.
      eexists. split; [reflexivity|]. split; [|split].
      * do 2 apply tally_nodup_set. exact Hnd.
      * intros h. rewrite !tally_get_set.
        destruct (String.eqb h0 h) eqn:E.
        -- apply String.eqb_eq in E as <-. rewrite Hr.
           rewrite (with_host_snoc_same h0 seen item Hh), Hwh. reflexivity.
        -- apply String.eqb_neq in E. rewrite Hget.
           rewrite (with_host_snoc_other h seen item); [reflexivity|].
           rewrite Hh. congruence.
      * intros h1 h2.
        rewrite (keys_set_own_Some String.eqb _ h0 _
                   {| HostEntry.host_id := h0;
                      HostEntry.host_name := default EmptyString (host_name item);
                      HostEntry.listingsCount := 0 |})
          by (rewrite tally_get_set, String.eqb_refl; reflexivity).
        rewrite (keys_set_own_None String.eqb acc h0 _ Hget0).
        rewrite before_app. intros [H|[[H1 H2]|H]].
        -- apply first_seen_before_snoc, Hord, H.
        -- apply list_elem_of_singleton in H2 as ->.
           apply list_elem_of_fmap in H1 as ([k e] & -> & Hin). cbn [fst].
           apply (tally_get_elem _ _ _ Hnd) in Hin. rewrite Hget in Hin.
           apply first_seen_before_new; [|exact Hwh].
           destruct (ranked k); [|discriminate].
           destruct (with_host k seen); [discriminate|discriminate].
        -- cbn in H. destruct H as [[_ H]|[]]. apply elem_of_nil in H. contradiction.
    + rewrite Hget0. cbv beta iota. rewrite Hget0.
      eexists. split; [reflexivity|]. split; [|split].
      * apply tally_nodup_set. exact Hnd.
      * intros h. rewrite tally_get_set.
        destruct (String.eqb h0 h) eqn:E.
        -- apply String.eqb_eq in E as <-. rewrite Hr.
           rewrite (with_host_snoc_same h0 seen item Hh), Hwh.
           cbn [app]. unfold entry_of. cbn [HostEntry.host_id HostEntry.host_name
                                             HostEntry.listingsCount].
           do 2 f_equal. cbn [length]. rewrite length_app. cbn [length]. lia.
        -- apply String.eqb_neq in E. rewrite Hget.
           rewrite (with_host_snoc_other h seen item); [reflexivity|].
           rewrite Hh. congruence.
      * intros h1 h2. rewrite (keys_set_own_Some String.eqb acc h0 _ _ Hget0).
        intros H. apply first_seen_before_snoc, Hord, H.
Qed.

Lemma reduce_tally items : forall seen acc,
  tally_inv seen acc ->
  exists acc',
    reduce tally_step items acc = Ok acc' /\ tally_inv (seen ++ items) acc'.
Proof.
  induction items as [|item rest IH]; intros seen acc Hinv.
  - exists acc. rewrite app_nil_r. split; [reflexivity|exact Hinv].
  - destruct (tally_step_inv seen acc item Hinv) as (acc1 & Hstep & Hinv1).
    destruct (IH _ _ Hinv1) as (acc' & Hrun & Hinv').
    exists acc'. split.
    + cbn [reduce]. rewrite Hstep. exact Hrun.
    + rewrite <- app_assoc in Hinv'. exact Hinv'.
Qed.

Lemma tally_inv_nil : tally_inv [] [].
Proof.
  split; [exact I|]. split.
  - intros h. cbn. destruct (ranked h); reflexivity.
  - intros h1 h2 [].
Qed.

(** ** Sorting and enumeration *)

Section SortFacts.
Context {A : Type}.
Variable cmp : A -> A -> Z.

Lemma sort_insert_perm x l : sort_insert cmp x l ≡ₚ x :: l.
Proof.
  induction l as [|y l IH]; cbn; [reflexivity|].
  destruct (cmp x y <=? 0)%Z; [reflexivity|].
  rewrite IH. apply Permutation_swap.
Qed.

Lemma Array_sort_perm l : Array_sort cmp l ≡ₚ l.
Proof.
  induction l as [|x l IH]; cbn; [reflexivity|].
  rewrite sort_insert_perm, IH. reflexivity.
Qed.

(** Where [a] stands before [b] after an insertion: the new element
    passes only those it has to follow. *)
Lemma before_sort_insert x l a b :
  before (sort_insert cmp x l) a b ->
  (a = x /\ b ∈ l) \/ before l a b \/ (b = x /\ a ∈ l /\ (0 < cmp x a)%Z).
Proof.
  induction l as [|y l IH]; cbn [sort_insert].
  - cbn. intros [[_ H]|[]]. apply elem_of_nil in H. contradiction.
  - destruct (cmp x y <=? 0)%Z eqn:E.
    + cbn. intros [[-> H]|H]; auto.
    + apply Z.leb_gt in E. cbn [before]. intros [[-> H]|H].
      * rewrite sort_insert_perm in H. apply elem_of_cons in H as [->|H].
        -- right. right. split; [reflexivity|]. split; [left|exact E].
        -- right. left. left. auto.
      * destruct (IH H) as [[-> Hb]|[Hab|(-> & Ha & Hc)]].
        -- left. split; [reflexivity|right; exact Hb].
        -- right. left. right. exact Hab.
        -- right. right. split; [reflexivity|]. split; [right; exact Ha|exact Hc].
Qed.

(** Stability: an element that stands after one it does not have to
    follow stood after it before the sort. *)
Lemma Array_sort_stable l a b :
  before (Array_sort cmp l) a b -> (cmp b a <= 0)%Z -> before l a b.
Proof.
  induction l as [|x l IH]; cbn [Array_sort]; [cbn; tauto|].
  intros H Hc. apply before_sort_insert in H as [[-> Hb]|[Hab|(-> & _ & Hgt)]].
  - left. split; [reflexivity|]. rewrite Array_sort_perm in Hb. exact Hb.
  - right. auto.
  - lia.
Qed.
End SortFacts.

Lemma sort_insert_desc x l :
  StronglySorted count_desc l -> StronglySorted count_desc (sort_insert by_count_desc x l).
Proof.
  induction 1 as [|y l Hs IH Hy]; cbn [sort_insert].
  - repeat constructor.
  - destruct (by_count_desc x y <=? 0)%Z eqn:E.
    + apply Z.leb_le in E. unfold by_count_desc in E.
      constructor; [constructor; assumption|].
      constructor; [unfold count_desc; lia|].
      eapply Forall_impl; [exact Hy|]. unfold count_desc. intros z Hz. lia.
    + apply Z.leb_gt in E. unfold by_count_desc in E.
      constructor; [exact IH|].
      rewrite sort_insert_perm. constructor; [unfold count_desc; lia|exact Hy].
Qed.

Lemma Array_sort_desc l : StronglySorted count_desc (Array_sort by_count_desc l).
Proof.
  induction l as [|x l IH]; cbn; [constructor|]. apply sort_insert_desc, IH.
Qed.

Lemma before_sorted {A} (R : A -> A -> Prop) l a b :
  StronglySorted R l -> before l a b -> R a b.
Proof.
  induction 1 as [|x l Hs IH Hx]; cbn; [tauto|].
  intros [[-> Hb]|H]; [|auto].
  rewrite Forall_forall in Hx. apply Hx, Hb.
Qed.

Lemma before_NoDup {A} (l : list A) a b : NoDup l -> before l a b -> a <> b.
Proof.
  induction 1 as [|x l Hx Hnd IH]; cbn; [tauto|].
  intros [[-> Hb]|H]; [|auto]. intros ->. contradiction.
Qed.

Section EnumerationFacts.
Context {K V : Type}.
Variable array_index : K -> option N.

Lemma insert_index_perm i (p : K * V) l : insert_index i p l ≡ₚ (i, p) :: l.
Proof.
  induction l as [|[j q] l IH]; cbn; [reflexivity|].
  destruct (i <=? j)%N; [reflexivity|]. rewrite IH. apply Permutation_swap.
Qed.

Lemma insert_index_sorted i (p : K * V) l :
  StronglySorted (fun x y => (fst x <= fst y)%N) l ->
  StronglySorted (fun x y => (fst x <= fst y)%N) (insert_index i p l).
Proof.
  induction 1 as [|[j q] l Hs IH Hy]; cbn [insert_index].
  - repeat constructor.
  - destruct (i <=? j)%N eqn:E.
    + apply N.leb_le in E.
      constructor; [constructor; assumption|].
      constructor; [exact E|].
      eapply Forall_impl; [exact Hy|]. cbn. intros z Hz. lia.
    + apply N.leb_gt in E. constructor; [exact IH|].
      rewrite insert_index_perm. constructor; [cbn; lia|exact Hy].
Qed.

Lemma index_props_sorted (o : props K V) :
  StronglySorted (fun x y => (fst x <= fst y)%N) (index_props array_index o).
Proof.
  induction o as [|p o IH]; cbn; [constructor|].
  destruct (array_index (fst p)); [apply insert_index_sorted, IH|exact IH].
Qed.

Lemma index_props_perm (o : props K V) :
  map snd (index_props array_index o) ≡ₚ List.filter (is_index array_index) o.
Proof.
  induction o as [|p o IH]; cbn; [reflexivity|]. unfold is_index at 1.
  destruct (array_index (fst p)); [|exact IH].
  change (map snd ?l) with (snd <$> l). rewrite insert_index_perm.
  cbn. constructor. exact IH.
Qed.

Lemma filter_split_perm {A} (p : A -> bool) (l : list A) :
  List.filter p l ++ List.filter (fun x => negb (p x)) l ≡ₚ l.
Proof.
  induction l as [|x l IH]; cbn; [reflexivity|].
  destruct (p x); cbn.
  - constructor. exact IH.
  - rewrite <- Permutation_middle. constructor. exact IH.
Qed.

Lemma Object_entries_perm (o : props K V) : Object_entries array_index o ≡ₚ o.
Proof.
  unfold Object_entries. rewrite index_props_perm. apply filter_split_perm.
Qed.

(** Where [p] is enumerated before [q]. *)
Lemma before_Object_entries (o : props K V) p q :
  before (Object_entries array_index o) p q ->
  match array_index (fst p), array_index (fst q) with
  | Some i, Some j => (i <= j)%N
  | Some _, None => True
  | None, Some _ => False
  | None, None => before o p q
  end.
Proof.
  unfold Object_entries. rewrite before_app.
  assert (Hidx : forall x, x ∈ index_props array_index o ->
            array_index (fst (snd x)) = Some (fst x)).
  { intros [i r] H. apply elem_of_index_props in H. apply H. }
  assert (Hnon : forall r, r ∈ List.filter (fun p => negb (is_index array_index p)) o ->
            array_index (fst r) = None).
  { intros r H. apply list_elem_of_In, filter_In in H as [_ H].
    unfold is_index in H. destruct (array_index (fst r)); [discriminate|reflexivity]. }
  intros [H|[[Hp Hq]|H]].
  - apply before_map in H as (x & y & Hxy & <- & <-).
    destruct (before_elem _ _ _ Hxy) as [Hx Hy].
    rewrite (Hidx x Hx), (Hidx y Hy).
    apply (before_sorted _ _ _ _ (index_props_sorted o) Hxy).
  - apply list_elem_of_fmap in Hp as (x & -> & Hx).
    rewrite (Hidx x Hx), (Hnon q Hq). exact I.
  - destruct (before_elem _ _ _ H) as [Hp Hq].
    rewrite (Hnon p Hp), (Hnon q Hq). apply before_filter in H. exact H.
Qed.
End EnumerationFacts.

(** ** The host ranking *)

Lemma nodup_keys_NoDup (o : props string HostEntry.t) :
  nodup_keys String.eqb o -> NoDup (map fst o).
Proof.
  induction o as [|[k v] o IH]; cbn; [constructor|].
  intros [Hget Hnd]. constructor; [|auto].
  intros Hin. apply list_elem_of_fmap in Hin as ([k' v'] & Hk & Hin). cbn in Hk. subst k'.
  pose proof (get_own_None String.eqb o k k v' Hget Hin) as E.
  rewrite String.eqb_refl in E. discriminate.
Qed.

(** The own properties of the tally of [cur]. *)
Lemma tally_inv_elem cur tally k e :
  tally_inv cur tally ->
  (k, e) ∈ tally <->
  ranked k = true /\ with_host k cur <> [] /\ e = entry_of k (with_host k cur).
Proof.
  intros (Hnd & Hget & _). split.
  - intros Hin. apply (tally_get_elem _ _ _ Hnd) in Hin. rewrite Hget in Hin.
    destruct (ranked k); [|discriminate].
    destruct (with_host k cur) eqn:E; [discriminate|].
    injection Hin as <-. repeat split. discriminate.
  - intros (Hr & Hne & ->). specialize (Hget k). rewrite Hr in Hget.
    destruct (with_host k cur) eqn:E; [contradiction|].
    apply get_own_Some in Hget as (k' & Hin & Hk).
    apply String.eqb_eq in Hk as ->. exact Hin.
Qed.

Lemma tally_keys cur tally :
  tally_inv cur tally -> map HostEntry.host_id (map snd tally) = map fst tally.
Proof.
  intros Hinv. rewrite map_map. apply map_ext_in. intros [k e] Hin.
  apply list_elem_of_In, (tally_inv_elem cur tally k e Hinv) in Hin
    as (_ & _ & ->).
  reflexivity.
Qed.

Lemma ranking_of_spec (cur : list Listing) :
  exists r, ranking_of cur = Ok r /\ ranking_for cur r /\ ranking_order cur r.
Proof.
  destruct (reduce_tally cur [] [] tally_inv_nil) as (tally & Hrun & Hinv).
  rewrite app_nil_l in Hinv.
  exists (Array_sort by_count_desc (Object_values string_index tally)).
  split; [unfold ranking_of; rewrite Hrun; reflexivity|].
  assert (Hperm : Object_values string_index tally ≡ₚ map snd tally).
  { unfold Object_values. change (map snd ?l) with (snd <$> l).
    rewrite Object_entries_perm. reflexivity. }
  assert (Hkeys : NoDup (map fst tally)) by (apply nodup_keys_NoDup, Hinv).
  split; [split|split].
  - change (map HostEntry.host_id ?l) with (HostEntry.host_id <$> l).
    rewrite Array_sort_perm, Hperm.
    change (HostEntry.host_id <$> ?l) with (map HostEntry.host_id l).
    rewrite (tally_keys cur tally Hinv). exact Hkeys.
  - intros e. rewrite Array_sort_perm, Hperm. split.
    + intros H. apply list_elem_of_fmap in H as ([k e'] & -> & Hin).
      exists k. apply (tally_inv_elem cur tally k e' Hinv), Hin.
    + intros (h & Hh). apply (tally_inv_elem cur tally h e Hinv) in Hh.
      apply (list_elem_of_fmap_2 snd _ _ Hh).
  - apply Array_sort_desc.
  - intros e1 e2 Hb Hc.
    apply Array_sort_stable in Hb; [|unfold by_count_desc; lia].
    unfold Object_values in Hb. apply before_map in Hb as (p & q & Hpq & <- & <-).
    destruct (before_elem _ _ _ Hpq) as [Hp Hq].
    apply elem_of_Object_entries in Hp, Hq.
    destruct p as [k1 e1], q as [k2 e2].
    apply (tally_inv_elem cur tally k1 e1 Hinv) in Hp as (_ & _ & He1).
    apply (tally_inv_elem cur tally k2 e2 Hinv) in Hq as (_ & _ & He2).
    cbn [snd]. rewrite He1, He2. cbn [entry_of HostEntry.host_id].
    assert (Hne : k1 <> k2).
    { apply (map_before fst) in Hpq. cbn [fst] in Hpq.
      eapply before_NoDup; [|exact Hpq].
      change (map fst ?l) with (fst <$> l). rewrite Object_entries_perm. exact Hkeys. }
    apply before_Object_entries in Hpq. cbn [fst] in Hpq.
    unfold enumerated_before.
    destruct (string_index k1) as [i|] eqn:E1, (string_index k2) as [j|] eqn:E2;
      try exact Hpq.
    + assert (i <> j)
        by (intros ->; apply Hne, (string_index_inj k1 k2 j); assumption).
      lia.
    + destruct Hinv as (_ & _ & Hord). apply Hord.
      apply (map_before fst) in Hpq. exact Hpq.
Qed.

(** Every host identifier that is not empty and names no member of
    [Object.prototype] has one entry, with the number of its listings
    and the name of the first of them. *)
Lemma host_ranking_entries (w : world) (cur : list Listing) :
  current w = Some cur ->
  exists r, computeHostRanking w = Ok (r, w) /\ ranking_for cur r.
Proof.
  intros Hcur. destruct (ranking_of_spec cur) as (r & Hrun & Hfor & _).
  exists r. split; [|exact Hfor].
  unfold computeHostRanking. rewrite (read_current_run ranking_of w cur Hcur), Hrun.
  reflexivity.
Qed.

(** C4, as amended.  [computeHostRanking()] returns its entries in
    descending order of listing count.  Two entries with the same count
    stand in the order in which the tally object enumerates their host
    identifiers: identifiers that are array indices come first, in
    ascending numeric order, and the other identifiers follow in the
    order in which the hosts were first seen. *)
Theorem host_ranking_order (w : world) (cur : list Listing) :
  current w = Some cur ->
  exists r, computeHostRanking w = Ok (r, w) /\ ranking_order cur r.
Proof.
  intros Hcur. destruct (ranking_of_spec cur) as (r & Hrun & _ & Hord).
  exists r. split; [|exact Hord].
  unfold computeHostRanking. rewrite (read_current_run ranking_of w cur Hcur), Hrun.
  reflexivity.
Qed.

Lemma host_ranking_order_witness :
  current (world_of example_rows) = Some example_rows
  /\ exists r, computeHostRanking (world_of example_rows)
                 = Ok (r, world_of example_rows)
       /\ ranking_order example_rows r.
Proof.
  split; [reflexivity|].
  apply (host_ranking_order (world_of example_rows) example_rows). reflexivity.
Defined.

(** The example of the specification: hosts A, A, B, A, the empty
    identifier and C give A with 3, then B and C with 1 each. *)
Example host_ranking_example :
  computeHostRanking (world_of example_rows) =
    Ok ([ {| HostEntry.host_id := "A"; HostEntry.host_name := "A";
             HostEntry.listingsCount := 3 |};
          {| HostEntry.host_id := "B"; HostEntry.host_name := "B";
             HostEntry.listingsCount := 1 |};
          {| HostEntry.host_id := "C"; HostEntry.host_name := "C";
             HostEntry.listingsCount := 1 |} ],
        world_of example_rows).
Proof. vm_compute. reflexivity. Qed.

(** Host 20 is seen before host 10, each has one listing, and the
    ranking lists host 10 first: ties are not in first-seen order. *)
Lemma host_ranking_ties_counterexample :
  exists r,
    computeHostRanking (world_of numeric_rows) = Ok (r, world_of numeric_rows)
    /\ map HostEntry.host_id r = ["10"; "20"]%string
    /\ ~ first_seen_ties numeric_rows r.
Proof.
  eexists. split; [vm_compute; reflexivity|]. split; [reflexivity|].
  intros H.
  destruct (H {| HostEntry.host_id := "10"; HostEntry.host_name := "10";
                 HostEntry.listingsCount := 1 |}
              {| HostEntry.host_id := "20"; HostEntry.host_name := "20";
                 HostEntry.listingsCount := 1 |})
    as (pre & item & post & Hsplit & Hhost & Hpre).
  - left. split; [reflexivity|]. left.
  - reflexivity.
  - cbn [HostEntry.host_id] in Hhost, Hpre.
    destruct pre as [|x [|y pre]].
    + injection Hsplit as <- _. discriminate.
    + injection Hsplit as <- _. vm_compute in Hpre. discriminate.
    + injection Hsplit as _ _ Hrest. destruct pre; discriminate.
Qed.

(** C8 at a host identifier that names a member of [Object.prototype]:
    the host has a listing and the ranking has no entry for it. *)
Theorem host_ranking_inherited_key :
  current (world_of inherited_rows) = Some inherited_rows
  /\ with_host "constructor" inherited_rows <> []
  /\ computeHostRanking (world_of inherited_rows) = Ok ([], world_of inherited_rows).
Proof.
  split; [reflexivity|]. split; [vm_compute; discriminate|].
  vm_compute. reflexivity.
Qed.

(** ** Totality *)

(** C9. From any current snapshot, the empty one included, each of
    [filterByPrice], [filterByBedrooms], [filterByReviewScore],
    [reset], [computeStats], [computeHostRanking] and
    [computeBestValue] returns a value: no property is read on
    [undefined] and no quotient has a zero divisor. *)
Theorem core_operations_total (this : objref) (w : world)
    (cur orig : list Listing) :
  current w = Some cur -> original w = Some orig ->
  (forall a b, is_Ok (filterByPrice this a b w))
  /\ (forall a b, is_Ok (filterByBedrooms this a b w))
  /\ (forall a b, is_Ok (filterByReviewScore this a b w))
  /\ is_Ok (reset this w)
  /\ is_Ok (computeStats w)
  /\ is_Ok (computeHostRanking w)
  /\ is_Ok (computeBestValue w).
Proof.
  intros Hcur Horig. unfold is_Ok.
  repeat split.
  - intros a b. unfold filterByPrice. rewrite (filter_current_run _ _ _ _ Hcur). eauto.
  - intros a b. unfold filterByBedrooms. rewrite (filter_current_run _ _ _ _ Hcur). eauto.
  - intros a b. unfold filterByReviewScore.
    rewrite (filter_current_run _ _ _ _ Hcur). eauto.
  - rewrite (reset_run _ _ _ Horig). eauto.
  - destruct (computeStats_run w cur Hcur) as (s & Hrun & _). rewrite Hrun. eauto.
  - destruct (ranking_of_spec cur) as (r & Hrun & _).
    unfold computeHostRanking.
    rewrite (read_current_run ranking_of w cur Hcur), Hrun. eauto.
  - destruct (computeBestValue_run w cur Hcur) as (res & Hrun & _).
    rewrite Hrun. eauto.
Qed.

Lemma core_operations_total_witness :
  current (world_of []) = Some [] /\ original (world_of []) = Some []
  /\ is_Ok (computeStats (world_of []))
  /\ is_Ok (computeHostRanking (world_of []))
  /\ is_Ok (computeBestValue (world_of [])).
Proof.
  split; [reflexivity|]. split; [reflexivity|].
  apply (core_operations_total 0%nat (world_of []) [] []); reflexivity.
Defined.

(** ** Export *)

(** C10. [exportResults(filename, dataToExport)] serializes the current
    snapshot when the second argument is omitted or falsy, as
    [undefined], [null], [0], [NaN], the empty string and [false] are,
    so none of these values can be exported; it serializes the argument
    itself exactly when the argument is truthy. *)
Theorem export_payload_choice (file : string) (arg : option jsval) (w : world) :
  exists wr,
    exportResults file arg w = Ok (wr, w)
    /\ filename wr = file
    /\ exported (currentData w) arg (payload wr)
    /\ Forall (fun v => truthy v = false) falsy_literals.
Proof.
  eexists. split; [reflexivity|]. split; [reflexivity|]. split.
  - unfold exported. cbn [payload]. destruct arg as [v|]; [|reflexivity].
    split.
    + intros Hv. destruct v; cbn in Hv |- *; try rewrite Hv;
        try discriminate; (split; [reflexivity|discriminate]).
    + intros Hv. destruct v; cbn in Hv |- *; try rewrite Hv;
        try discriminate; reflexivity.
  - repeat constructor.
Qed.

(** * Further properties of the code *)

(** ** Chains of calls *)

Lemma chain_from this cs : forall w orig cur,
  original w = Some orig -> current w = Some cur ->
  exists w',
    chain this cs w = Ok (this, w')
    /\ original w' = Some orig
    /\ current w' = Some (foldl (snapshot_after orig) cur cs).
Proof.
  induction cs as [|c cs IH]; intros w orig cur Ho Hc.
  - exists w. cbn. auto.
  - pose proof (invoke_run this c w orig cur Ho Hc) as Hrun.
    destruct (IH _ orig (snapshot_after orig cur c)
                (original_kept _ _ _ _ _ Ho) (current_fresh _ _ _))
      as (w' & Hrun' & Ho' & Hc').
    exists w'. split; [|auto].
    cbn [chain]. unfold mbind, M_mbind. rewrite Hrun. exact Hrun'.
Qed.

Lemma snapshot_after_accepts orig cur c :
  is_filter c -> snapshot_after orig cur c = filter (accepts c) cur.
Proof. destruct c; cbn; [reflexivity..|tauto]. Qed.

Lemma foldl_filters orig cs : forall cur,
  Forall is_filter cs ->
  foldl (snapshot_after orig) cur cs =
    filter (fun item => Forall (fun c => accepts c item) cs) cur.
Proof.
  induction cs as [|c cs IH]; intros cur Hcs; cbn [foldl].
  - symmetry. induction cur as [|x l IHl]; [reflexivity|].
    rewrite filter_cons_True by constructor. f_equal. exact IHl.
  - apply Forall_cons in Hcs as [Hc Hcs].
    rewrite (IH _ Hcs), (snapshot_after_accepts _ _ _ Hc), list_filter_filter.
    apply list_filter_iff. intros x. rewrite Forall_cons. tauto.
Qed.

(** X1. A call made twice in a row leaves the same current snapshot as
    the call made once: each filter, and reset, is idempotent. *)
Theorem call_idempotent (this : objref) (w : world) (orig cur : list Listing)
    (c : call) :
  original w = Some orig -> current w = Some cur ->
  exists w1 w2,
    chain this [c; c] w = Ok (this, w1)
    /\ chain this [c] w = Ok (this, w2)
    /\ current w1 = current w2.
Proof.
  intros Ho Hc.
  destruct (chain_from this [c; c] w orig cur Ho Hc) as (w1 & H1 & _ & Hc1).
  destruct (chain_from this [c] w orig cur Ho Hc) as (w2 & H2 & _ & Hc2).
  exists w1, w2. split; [exact H1|]. split; [exact H2|].
  rewrite Hc1, Hc2. f_equal. cbn [foldl].
  destruct c; cbn [snapshot_after]; try reflexivity;
    rewrite list_filter_filter; apply list_filter_iff; intros x; tauto.
Qed.

Lemma call_idempotent_witness :
  original sample_world = Some sample_rows
  /\ current sample_world = Some sample_rows
  /\ exists w1 w2,
    chain 0%nat [FilterByPrice 150 250; FilterByPrice 150 250] sample_world
      = Ok (0%nat, w1)
    /\ chain 0%nat [FilterByPrice 150 250] sample_world = Ok (0%nat, w2)
    /\ current w1 = current w2.
Proof.
  split; [reflexivity|]. split; [reflexivity|].
  apply (call_idempotent 0%nat sample_world sample_rows sample_rows
           (FilterByPrice 150 250)); reflexivity.
Defined.

Lemma in_range_meet a b c d v :
  in_range a b v /\ in_range c d v <-> in_range (Qmax a c) (Qmin b d) v.
Proof.
  unfold in_range. rewrite Q.max_lub_iff, Q.min_glb_iff. tauto.
Qed.

(** X2. [filterByPrice(a, b)] followed by [filterByPrice(c, d)] leaves
    what a single [filterByPrice(max(a, c), min(b, d))] leaves: a second
    filter on the same field narrows the range and never widens it. *)
Theorem price_filters_narrow (this : objref) (w : world) (cur : list Listing)
    (a b c d : Q) :
  current w = Some cur ->
  exists w1 w2,
    chain this [FilterByPrice a b; FilterByPrice c d] w = Ok (this, w1)
    /\ filterByPrice this (Qmax a c) (Qmin b d) w = Ok (this, w2)
    /\ current w1 = current w2.
Proof.
  intros Hc.
  destruct (range_filter_spec price (price_in (Qmax a c) (Qmin b d))
              (Qmax a c) (Qmin b d) this w cur)
    as (w2 & H2 & Hc2 & _); [reflexivity|exact Hc|].
  destruct (range_filter_spec price (price_in a b) a b this w cur)
    as (wa & Ha & Hca & _); [reflexivity|exact Hc|].
  destruct (range_filter_spec price (price_in c d) c d this wa
              (filter (fun item => in_range a b (price item)) cur))
    as (w1 & H1 & Hc1 & _); [reflexivity|exact Hca|].
  exists w1, w2. split; [|split; [exact H2|]].
  - cbn [chain invoke]. unfold mbind, M_mbind, filterByPrice, mret, M_mret.
    rewrite Ha. unfold filterByPrice in H1. rewrite H1. reflexivity.
  - rewrite Hc1, Hc2. f_equal. rewrite list_filter_filter.
    apply list_filter_iff. intros x. rewrite <- in_range_meet. tauto.
Qed.

Lemma price_filters_narrow_witness :
  current sample_world = Some sample_rows
  /\ exists w1 w2,
    chain 0%nat [FilterByPrice 50 250; FilterByPrice 150 400] sample_world
      = Ok (0%nat, w1)
    /\ filterByPrice 0%nat (Qmax 50 150) (Qmin 250 400) sample_world = Ok (0%nat, w2)
    /\ current w1 = current w2.
Proof.
  split; [reflexivity|].
  apply (price_filters_narrow 0%nat sample_world sample_rows 50 250 150 400).
  reflexivity.
Defined.

(** X3. A reset makes the calls before it irrelevant: load, any calls,
    a reset and further calls leave the current snapshot that load and
    the further calls alone leave. *)
Theorem reset_forgets (this : objref) (rows : list Listing) (before after : list call) :
  exists w1 w2,
    session this rows (before ++ Reset :: after) = Ok (this, w1)
    /\ session this rows after = Ok (this, w2)
    /\ current w1 = current w2.
Proof.
  destruct (session_run this rows (before ++ Reset :: after)) as (w1 & H1 & _ & Hc1).
  destruct (session_run this rows after) as (w2 & H2 & _ & Hc2).
  exists w1, w2. split; [exact H1|]. split; [exact H2|].
  rewrite Hc1, Hc2, foldl_app. reflexivity.
Qed.

(** X4. Filters can be chained in any order: two chains of filter
    calls that are permutations of one another leave the same current
    snapshot, the listings that pass every one of the range tests, in
    the order they had. *)
Theorem filters_any_order (this : objref) (w : world) (orig cur : list Listing)
    (cs1 cs2 : list call) :
  original w = Some orig -> current w = Some cur ->
  Forall is_filter cs1 -> cs1 ≡ₚ cs2 ->
  exists w1 w2,
    chain this cs1 w = Ok (this, w1)
    /\ chain this cs2 w = Ok (this, w2)
    /\ current w1 = current w2
    /\ current w1 =
         Some (filter (fun item => Forall (fun c => accepts c item) cs1) cur).
Proof.
  intros Ho Hc Hf Hperm.
  assert (Hf2 : Forall is_filter cs2) by (rewrite <- Hperm; exact Hf).
  destruct (chain_from this cs1 w orig cur Ho Hc) as (w1 & H1 & _ & Hc1).
  destruct (chain_from this cs2 w orig cur Ho Hc) as (w2 & H2 & _ & Hc2).
  exists w1, w2. split; [exact H1|]. split; [exact H2|].
  rewrite Hc1, Hc2, !foldl_filters by assumption.
  split; [|reflexivity]. f_equal. apply list_filter_iff. intros x.
  rewrite Hperm. reflexivity.
Qed.

Lemma filters_any_order_witness :
  original sample_world = Some sample_rows
  /\ current sample_world = Some sample_rows
  /\ exists w1 w2,
    chain 0%nat [FilterByPrice 50 250; FilterByReviewScore 85 100;
                 FilterByBedrooms 1 1] sample_world = Ok (0%nat, w1)
    /\ chain 0%nat [FilterByBedrooms 1 1; FilterByPrice 50 250;
                    FilterByReviewScore 85 100] sample_world = Ok (0%nat, w2)
    /\ current w1 = current w2
    /\ current w1 =
         Some (filter (fun item => Forall (fun c => accepts c item)
                 [FilterByPrice 50 250; FilterByReviewScore 85 100;
                  FilterByBedrooms 1 1]) sample_rows).
Proof.
  split; [reflexivity|]. split; [reflexivity|].
  apply (filters_any_order 0%nat sample_world sample_rows sample_rows).
  - reflexivity.
  - reflexivity.
  - repeat constructor.
  - apply Permutation_sym, (Permutation_cons_append [_; _]).
Defined.

(** ** Statistics after a filter *)

Lemma Forall_filter_range (f : Listing -> Q) lo hi (l : list Listing) :
  Forall (fun item => in_range lo hi (f item))
    (filter (fun item => in_range lo hi (f item)) l).
Proof.
  apply Forall_forall. intros x Hx. apply list_elem_of_filter in Hx. apply Hx.
Qed.

(** The bedroom count a listing is filed under is its bedroom count. *)
Lemma bedroom_count_listing (item : Listing) k :
  number_eq (bedroom_count item) k <-> number_eq (Finite (bedrooms item)) k.
Proof.
  unfold bedroom_count. cbn [bedrooms_of Listing_numeric number_or_zero].
  destruct (Qeq_bool (bedrooms item) 0) eqn:E; [|reflexivity].
  apply Qeq_bool_iff in E. destruct k as [| |q]; cbn; try tauto.
  rewrite E. reflexivity.
Qed.

Lemma with_bedrooms_all n (l : list Listing) :
  Forall (fun item => in_range n n (bedrooms item)) l ->
  with_bedrooms (Finite n) l = l
  /\ forall k, ~ number_eq k (Finite n) -> with_bedrooms k l = [].
Proof.
  intros Hall. unfold with_bedrooms. induction Hall as [|x l [H1 H2] _ [IH1 IH2]].
  - split; [reflexivity|]. intros k _. reflexivity.
  - assert (Hx : bedrooms x == n) by (apply Qle_antisym; assumption).
    split.
    + rewrite filter_cons_True by (apply bedroom_count_listing; exact Hx).
      rewrite IH1. reflexivity.
    + intros k Hk. rewrite filter_cons_False; [auto|].
      intros Hxk. apply bedroom_count_listing in Hxk. apply Hk.
      destruct k as [| |q]; try contradiction. cbn in Hxk |- *.
      rewrite <- Hxk. exact Hx.
Qed.

(** X6. After [filterByBedrooms(n, n)] the per-bedroom averages of
    [computeStats()] have the single key [n], and its average is the
    overall average price: the two accumulations of [computeStats]
    agree. *)
Theorem stats_single_bedroom_count (this : objref) (w : world)
    (cur : list Listing) (n : Q) :
  current w = Some cur ->
  exists w' s,
    filterByBedrooms this n n w = Ok (this, w')
    /\ computeStats w' = Ok (s, w')
    /\ (forall k, ~ number_eq k (Finite n) ->
          get_own number_eqb (Stats.avgPriceByBedrooms s) k = None)
    /\ (Stats.totalListings s <> 0%Z ->
        exists v, get_own number_eqb (Stats.avgPriceByBedrooms s) (Finite n) = Some v
                  /\ v = Stats.avgPrice s).
Proof.
  intros Hc.
  destruct (range_filter_spec bedrooms (bedrooms_in n n) n n this w cur)
    as (w' & Hrun & Hc' & _); [reflexivity|exact Hc|].
  set (cur' := filter (fun item => in_range n n (bedrooms item)) cur) in *.
  destruct (computeStats_run w' cur' Hc') as (s & Hs & Htotal & _ & Havg & _ & Hrooms).
  destruct (with_bedrooms_all n cur' (Forall_filter_range bedrooms n n cur))
    as [Hsame Hother].
  exists w', s. split; [exact Hrun|]. split; [exact Hs|]. split.
  - intros k Hk. specialize (Hrooms k). rewrite (Hother k Hk) in Hrooms.
    destruct (get_own number_eqb (Stats.avgPriceByBedrooms s) k); [|reflexivity].
    destruct Hrooms as [Hne _]. contradiction.
  - intros Hne. assert (Hcur : cur' <> []).
    { intros E. apply Hne. rewrite Htotal, E. reflexivity. }
    specialize (Hrooms (Finite n)). rewrite Hsame in Hrooms.
    destruct (get_own number_eqb (Stats.avgPriceByBedrooms s) (Finite n)) as [v|];
      [|contradiction].
    exists v. split; [reflexivity|].
    rewrite (proj2 (Havg Hcur) (prices_not_NaN cur')). apply Hrooms.
Qed.

Lemma stats_single_bedroom_count_witness :
  current sample_world = Some sample_rows
  /\ exists w' s,
    filterByBedrooms 0%nat 1 1 sample_world = Ok (0%nat, w')
    /\ computeStats w' = Ok (s, w')
    /\ (forall k, ~ number_eq k (Finite 1) ->
          get_own number_eqb (Stats.avgPriceByBedrooms s) k = None)
    /\ (Stats.totalListings s <> 0%Z ->
        exists v, get_own number_eqb (Stats.avgPriceByBedrooms s) (Finite 1) = Some v
                  /\ v = Stats.avgPrice s).
Proof.
  split; [reflexivity|].
  apply (stats_single_bedroom_count 0%nat sample_world sample_rows 1).
  reflexivity.
Defined.

(** ** Counts of the ranking *)

Lemma filter_iff_in {A} (P1 P2 : A -> Prop)
    `{!forall x, Decision (P1 x)} `{!forall x, Decision (P2 x)} (l : list A) :
  (forall x, x ∈ l -> P1 x <-> P2 x) -> filter P1 l = filter P2 l.
Proof.
  induction l as [|a l IH]; intros Hiff; [reflexivity|].
  assert (Ha : P1 a <-> P2 a) by (apply Hiff; left).
  assert (Hl : filter P1 l = filter P2 l) by (apply IH; intros x Hx; apply Hiff; right; exact Hx).
  destruct (decide (P1 a)) as [H1|H1].
  - rewrite !filter_cons_True by tauto. rewrite Hl. reflexivity.
  - rewrite !filter_cons_False by tauto. exact Hl.
Qed.

(** The listings of the hosts [h :: hosts], a list without repetition,
    are those of [h] and those of [hosts]. *)
Lemma count_hosts_cons h hosts (cur : list Listing) :
  h ∉ hosts ->
  length (filter (fun item => host_id item ∈ Some <$> (h :: hosts)) cur) =
    (length (with_host h cur)
     + length (filter (fun item => host_id item ∈ Some <$> hosts) cur))%nat.
Proof.
  intros Hh. unfold with_host. induction cur as [|item cur IH]; [reflexivity|].
  destruct (decide (host_id item = Some h)) as [E|E].
  - rewrite (filter_cons_True (fun it => host_id it = Some h)) by exact E.
    rewrite filter_cons_True by (rewrite E; left).
    rewrite filter_cons_False.
    + cbn [length]. rewrite IH. reflexivity.
    + rewrite E. intros Hin. apply list_elem_of_fmap in Hin as (h' & [= <-] & Hin).
      contradiction.
  - rewrite (filter_cons_False (fun it => host_id it = Some h)) by exact E.
    destruct (decide (host_id item ∈ Some <$> hosts)) as [E'|E'].
    + rewrite !filter_cons_True; [|exact E'|right; exact E'].
      cbn [length]. rewrite IH. lia.
    + rewrite !filter_cons_False; [exact IH|exact E'|].
      intros Hin. apply elem_of_cons in Hin as [Hin|Hin]; [congruence|contradiction].
Qed.

Lemma count_hosts hosts (cur : list Listing) :
  NoDup hosts ->
  foldr Z.add 0%Z (map (fun h => Z.of_nat (length (with_host h cur))) hosts) =
    Z.of_nat (length (filter (fun item => host_id item ∈ Some <$> hosts) cur)).
Proof.
  induction 1 as [|h hosts Hh Hnd IH].
  - cbn. induction cur as [|item cur IHc]; [reflexivity|].
    rewrite filter_cons_False; [exact IHc|]. intros Hin. apply elem_of_nil in Hin.
    contradiction.
  - cbn [map foldr]. rewrite IH, (count_hosts_cons h hosts cur Hh). lia.
Qed.

Lemma ranking_for_entry cur r e :
  ranking_for cur r -> e ∈ r ->
  ranked (HostEntry.host_id e) = true
  /\ with_host (HostEntry.host_id e) cur <> []
  /\ e = entry_of (HostEntry.host_id e) (with_host (HostEntry.host_id e) cur).
Proof.
  intros [_ Hiff] He. apply Hiff in He as (h & Hr & Hne & ->). cbn. auto.
Qed.

Lemma ranking_counts cur r :
  ranking_for cur r ->
  total_count r = Z.of_nat (length (filter (fun item => has_ranked_host item = true) cur))
  /\ forall e, e ∈ r -> (1 <= HostEntry.listingsCount e <= Z.of_nat (length cur))%Z.
Proof.
  intros Hfor. pose proof Hfor as [Hnd Hiff]. split.
  - unfold total_count.
    assert (E : map HostEntry.listingsCount r =
                map (fun h => Z.of_nat (length (with_host h cur)))
                  (map HostEntry.host_id r)).
    { rewrite map_map. apply map_ext_in. intros e He.
      apply list_elem_of_In, (ranking_for_entry cur r e Hfor) in He as (_ & _ & He).
      rewrite He at 1. reflexivity. }
    rewrite E, (count_hosts _ cur Hnd). do 2 f_equal.
    apply filter_iff_in. intros item Hitem. unfold has_ranked_host.
    rewrite list_elem_of_fmap. split.
    + intros (h & Hh & Hin). rewrite Hh.
      apply list_elem_of_fmap in Hin as (e & -> & He).
      apply (ranking_for_entry cur r e Hfor He).
    + destruct (host_id item) as [h|] eqn:Hh; [|discriminate].
      intros Hr. exists h. split; [reflexivity|].
      apply list_elem_of_fmap. exists (entry_of h (with_host h cur)).
      split; [reflexivity|]. apply Hiff. exists h. split; [exact Hr|].
      split; [|reflexivity]. intros Hnil.
      assert (Hin : item ∈ with_host h cur)
        by (apply list_elem_of_filter; auto).
      rewrite Hnil in Hin. apply elem_of_nil in Hin. exact Hin.
  - intros e He. destruct (ranking_for_entry cur r e Hfor He) as (_ & Hne & ->).
    cbn [entry_of HostEntry.listingsCount].
    pose proof (length_filter (fun item => host_id item = Some (HostEntry.host_id e)) cur).
    unfold with_host in *.
    destruct (filter _ cur); [contradiction|]. cbn [length] in *. lia.
Qed.

(** X7. The listing counts of [computeHostRanking()] add up to the
    number of listings of the current snapshot whose host identifier
    gets an entry; every entry counts at least one listing and at most
    all of them. *)
Theorem host_ranking_counts (w : world) (cur : list Listing) :
  current w = Some cur ->
  exists r,
    computeHostRanking w = Ok (r, w)
    /\ total_count r =
         Z.of_nat (length (filter (fun item => has_ranked_host item = true) cur))
    /\ (total_count r <= Z.of_nat (length cur))%Z
    /\ forall e, e ∈ r -> (1 <= HostEntry.listingsCount e <= Z.of_nat (length cur))%Z.
Proof.
  intros Hcur. destruct (host_ranking_entries w cur Hcur) as (r & Hrun & Hfor).
  destruct (ranking_counts cur r Hfor) as [Hsum Hone].
  exists r. split; [exact Hrun|]. split; [exact Hsum|]. split; [|exact Hone].
  rewrite Hsum. apply inj_le, length_filter.
Qed.

Lemma host_ranking_counts_witness :
  current (world_of example_rows) = Some example_rows
  /\ exists r,
    computeHostRanking (world_of example_rows) = Ok (r, world_of example_rows)
    /\ total_count r =
         Z.of_nat (length (filter (fun item => has_ranked_host item = true)
                             example_rows))
    /\ (total_count r <= Z.of_nat (length example_rows))%Z
    /\ forall e, e ∈ r ->
         (1 <= HostEntry.listingsCount e <= Z.of_nat (length example_rows))%Z.
Proof.
  split; [reflexivity|].
  apply (host_ranking_counts (world_of example_rows) example_rows). reflexivity.
Defined.

(** X8. [handleRanking()] prints the heading and then one line for each
    of the first ten entries of the ranking, in their order and
    numbered from 1 to 10, and no line for the others; a host that is
    not shown has no more listings than any host that is. *)
Theorem handleRanking_top_ten (w : world) (cur : list Listing) :
  current w = Some cur ->
  exists r lines,
    computeHostRanking w = Ok (r, w)
    /\ handleRanking w = Ok (lines, w)
    /\ lines !! 0%nat = Some "== Host Ranking (Top 10) =="%string
    /\ length lines = S (min 10 (length r))
    /\ (forall (i : nat) host, (i < 10)%nat -> r !! i = Some host ->
          exists number,
            ["1"; "2"; "3"; "4"; "5"; "6"; "7"; "8"; "9"; "10"]%string !! i
              = Some number
            /\ lines !! S i =
                 Some (number ++ ". " ++ HostEntry.host_name host
                       ++ " (ID: " ++ HostEntry.host_id host ++ "), listings: "
                       ++ count_string (HostEntry.listingsCount host))%string)
    /\ forall shown hidden, shown ∈ take 10 r -> hidden ∈ drop 10 r ->
         (HostEntry.listingsCount hidden <= HostEntry.listingsCount shown)%Z.
Proof.
  intros Hcur. destruct (ranking_of_spec cur) as (r & Hr & _ & Hsorted & _).
  assert (Hrun : computeHostRanking w = Ok (r, w)).
  { unfold computeHostRanking.
    rewrite (read_current_run ranking_of w cur Hcur), Hr. reflexivity. }
  exists r. eexists. split; [exact Hrun|]. split.
  { unfold handleRanking, mbind, M_mbind. rewrite Hrun. reflexivity. }
  split; [reflexivity|]. split; [|split].
  - cbn [length]. rewrite length_imap, length_take. reflexivity.
  - intros i host Hi Hhost.
    assert (Hline : imap ranking_line (take 10 r) !! i = Some (ranking_line i host)).
    { rewrite list_lookup_imap, lookup_take, Hhost.
      destruct (decide (i < 10)%nat); [reflexivity|contradiction]. }
    do 10 (destruct i as [|i];
           [eexists; split; [reflexivity|exact Hline]|]).
    lia.
  - intros shown hidden Hs Hh. rewrite <- (take_drop 10 r) in Hsorted.
    apply (StronglySorted_app_1_elem_of _ _ _ _ _ Hsorted Hs Hh).
Qed.

Lemma handleRanking_top_ten_witness :
  current (world_of example_rows) = Some example_rows
  /\ exists r lines,
    computeHostRanking (world_of example_rows) = Ok (r, world_of example_rows)
    /\ handleRanking (world_of example_rows) = Ok (lines, world_of example_rows)
    /\ lines !! 0%nat = Some "== Host Ranking (Top 10) =="%string
    /\ length lines = S (min 10 (length r)).
Proof.
  split; [reflexivity|].
  destruct (handleRanking_top_ten (world_of example_rows) example_rows eq_refl)
    as (r & lines & H1 & H2 & H3 & H4 & _).
  exists r, lines. repeat split; assumption.
Defined.

(** The lines for the hosts A, A, B, A, the empty identifier and C. *)
Example handleRanking_example :
  handleRanking (world_of example_rows) =
    Ok ([ "== Host Ranking (Top 10) ==";
          "1. A (ID: A), listings: 3";
          "2. B (ID: B), listings: 1";
          "3. C (ID: C), listings: 1" ]%string,
        world_of example_rows).
Proof. vm_compute. reflexivity. Qed.

Lemma with_host_filter h (P : Listing -> Prop) `{!forall x, Decision (P x)}
    (cur : list Listing) :
  with_host h (filter P cur) = filter P (with_host h cur).
Proof. unfold with_host. apply filter_swap. Qed.

(** X9. A filter adds no host to the ranking and raises no host's
    count: every entry of the ranking after the call has an entry for
    the same host before it, with at least as many listings. *)
Theorem filter_lowers_counts (this : objref) (w : world) (orig cur : list Listing)
    (c : call) :
  original w = Some orig -> current w = Some cur -> is_filter c ->
  exists w' r r',
    computeHostRanking w = Ok (r, w)
    /\ invoke this c w = Ok (this, w')
    /\ computeHostRanking w' = Ok (r', w')
    /\ forall e', e' ∈ r' ->
         exists e, e ∈ r
           /\ HostEntry.host_id e = HostEntry.host_id e'
           /\ (HostEntry.listingsCount e' <= HostEntry.listingsCount e)%Z.
Proof.
  intros Ho Hc Hf.
  destruct (host_ranking_entries w cur Hc) as (r & Hr & Hfor).
  pose proof (invoke_run this c w orig cur Ho Hc) as Hrun.
  rewrite (snapshot_after_accepts _ _ _ Hf) in Hrun.
  destruct (host_ranking_entries _ _ (current_fresh (heap w) (filter (accepts c) cur)
                                        (listingData w)))
    as (r' & Hr' & Hfor').
  eexists _, r, r'. split; [exact Hr|]. split; [exact Hrun|]. split; [exact Hr'|].
  intros e' He'.
  destruct (ranking_for_entry _ _ _ Hfor' He') as (Hranked & Hne & He).
  set (h := HostEntry.host_id e') in *.
  rewrite with_host_filter in Hne, He.
  exists (entry_of h (with_host h cur)). split; [|split].
  - apply Hfor. exists h. split; [exact Hranked|]. split; [|reflexivity].
    intros Hnil. rewrite Hnil in Hne. apply Hne. reflexivity.
  - reflexivity.
  - rewrite He. cbn [entry_of HostEntry.listingsCount].
    apply inj_le, length_filter.
Qed.

Lemma filter_lowers_counts_witness :
  original sample_world = Some sample_rows
  /\ current sample_world = Some sample_rows
  /\ is_filter (FilterByPrice 150 350)
  /\ exists w' r r',
    computeHostRanking sample_world = Ok (r, sample_world)
    /\ invoke 0%nat (FilterByPrice 150 350) sample_world = Ok (0%nat, w')
    /\ computeHostRanking w' = Ok (r', w')
    /\ forall e', e' ∈ r' ->
         exists e, e ∈ r
           /\ HostEntry.host_id e = HostEntry.host_id e'
           /\ (HostEntry.listingsCount e' <= HostEntry.listingsCount e)%Z.
Proof.
  split; [reflexivity|]. split; [reflexivity|]. split; [exact I|].
  apply (filter_lowers_counts 0%nat sample_world sample_rows sample_rows
           (FilterByPrice 150 350)); [reflexivity|reflexivity|exact I].
Defined.

(** ** The best value in terms of scores and prices *)

Lemma round_half_even_nonneg n d : (0 <= n)%Z -> (0 <= round_half_even n d)%Z.
Proof.
  intros Hn. unfold round_half_even.
  assert (Hq : (0 <= n / Z.pos d)%Z) by (apply Z.div_pos; lia).
  destruct (2 * (n mod Z.pos d) ?= Z.pos d)%Z; [|lia|lia].
  destruct (Z.even (n / Z.pos d)); lia.
Qed.

Lemma significand_nonneg n d : (0 <= significand n d)%Z.
Proof.
  unfold significand. destruct (scaled n d (exponent n d)) as [n' d'] eqn:E.
  apply round_half_even_nonneg.
  unfold scaled in E. destruct (exponent n d); injection E as <- _; lia.
Qed.

Lemma pow2_pos e : 0 < pow2 e.
Proof.
  destruct e as [|p|p]; cbn [pow2].
  - reflexivity.
  - unfold Qlt. cbn. pose proof (Z.pow_pos_nonneg 2 (Z.pos p)). lia.
  - reflexivity.
Qed.

Lemma round_magnitude_nonneg n d v : round_magnitude n d = Some v -> 0 <= v.
Proof.
  unfold round_magnitude. destruct (_ || _)%bool; [discriminate|].
  intros [= <-]. rewrite Qred_correct.
  apply Qmult_le_0_compat.
  - pose proof (significand_nonneg n d). unfold Qle. cbn. lia.
  - apply Qlt_le_weak, pow2_pos.
Qed.

(** Rounding keeps the sign: what is not positive rounds to nothing
    positive. *)
Lemma round64_nonpos q : q <= 0 -> ~ exceeds (round64 q) (Finite 0).
Proof.
  intros Hq. apply not_exceeds. unfold round64.
  assert (Hn : (Qnum (Qred q) <= 0)%Z).
  { rewrite <- (Qred_correct q) in Hq. unfold Qle in Hq. cbn in Hq. lia. }
  destruct (Qnum (Qred q)) as [|n|n]; [reflexivity|lia|].
  destruct (round_magnitude n (Qden (Qred q))) as [v|] eqn:E; [|reflexivity].
  apply round_magnitude_nonneg in E. apply number_gt_finite_false. lra.
Qed.

(** A quotient above zero by a divisor above zero has a dividend above
    zero. *)
Lemma number_div_sign a b :
  exceeds b (Finite 0) -> exceeds (number_div a b) (Finite 0) -> exceeds a (Finite 0).
Proof.
  unfold exceeds. intros Hb Hr.
  destruct b as [|[]|y]; try discriminate Hb.
  - destruct a as [|s|x]; cbn in Hr; discriminate Hr.
  - apply number_gt_finite in Hb.
    destruct a as [|s|x]; cbn [number_div] in Hr.
    + cbn in Hr. discriminate Hr.
    + assert (E : Qle_bool 0 y = true) by (apply Qle_bool_iff; lra).
      rewrite E in Hr. destruct s; [cbn in Hr; discriminate Hr|reflexivity].
    + apply number_gt_finite. apply Qnot_le_lt. intros Hx.
      apply (round64_nonpos (x / y)); [|exact Hr].
      assert (Hinv : 0 <= / y) by (apply Qinv_le_0_compat; lra).
      unfold Qdiv. apply (Qle_trans _ (0 * / y)).
      * apply Qmult_le_compat_r; assumption.
      * rewrite Qmult_0_l. apply Qle_refl.
Qed.

Lemma best_value_member {A : Type} `{Numeric A} (cur : list A) res :
  best_value_for cur res ->
  forall r, res = Some r -> r ∈ cur /\ qualifies r /\ exceeds (ratio r) (Finite 0).
Proof.
  intros [Hres _] r ->. destruct Hres as (pre & post & -> & Hp & Hr & _).
  split; [apply elem_of_app; right; left|]. split; assumption.
Qed.

Lemma best_value_scores {A : Type} `{Numeric A} (cur : list A) res :
  best_value_for cur res ->
  (forall r, res = Some r ->
     r ∈ cur /\ exceeds (price_of r) (Finite 0)
     /\ exceeds (review_scores_rating_of r) (Finite 0))
  /\ ((forall item, item ∈ cur ->
         ~ exceeds (price_of item) (Finite 0)
         \/ ~ exceeds (review_scores_rating_of item) (Finite 0)) ->
      res = None).
Proof.
  intros Hres.
  assert (Hsome : forall r, res = Some r ->
            r ∈ cur /\ exceeds (price_of r) (Finite 0)
            /\ exceeds (review_scores_rating_of r) (Finite 0)).
  { intros r Hr. destruct (best_value_member cur res Hres r Hr) as (Hin & Hq & Hgt).
    split; [exact Hin|]. split; [exact Hq|].
    apply (number_div_sign _ (price_of r)); assumption. }
  split; [exact Hsome|].
  intros Hall. destruct res as [r|]; [|reflexivity]. exfalso.
  destruct (Hsome r eq_refl) as (Hin & Hp & Hs).
  destruct (Hall r Hin); contradiction.
Qed.

(** X10. The listing [computeBestValue()] returns is one of the current
    snapshot with a price above zero and a review score above zero, so
    a snapshot in which no listing has both, as one of listings without
    reviews (score 0), has no best value.  This holds for rows with any
    numbers and for the listings of a pipeline. *)
Theorem best_value_needs_score :
  (forall (A : Type) (numbers : Numeric A) (cur : list A),
     exists res,
       best_of cur = Ok res
       /\ (forall r, res = Some r ->
             r ∈ cur /\ exceeds (price_of r) (Finite 0)
             /\ exceeds (review_scores_rating_of r) (Finite 0))
       /\ ((forall item, item ∈ cur ->
              ~ exceeds (price_of item) (Finite 0)
              \/ ~ exceeds (review_scores_rating_of item) (Finite 0)) ->
           res = None))
  /\ forall (w : world) (cur : list Listing),
       current w = Some cur ->
       exists res,
         computeBestValue w = Ok (res, w)
         /\ (forall r, res = Some r ->
               r ∈ cur /\ 0 < price r /\ 0 < review_scores_rating r)
         /\ ((forall item, item ∈ cur ->
                price item <= 0 \/ review_scores_rating item <= 0) ->
             res = None).
Proof.
  split.
  - intros A numbers cur. destruct (best_of_spec cur) as (res & Hrun & Hres).
    exists res. split; [exact Hrun|]. apply best_value_scores, Hres.
  - intros w cur Hcur.
    destruct (computeBestValue_run w cur Hcur) as (res & Hrun & Hres).
    destruct (best_value_scores cur res Hres) as [Hsome Hnone].
    exists res. split; [exact Hrun|]. split.
    + intros r Hr. destruct (Hsome r Hr) as (Hin & Hp & Hs).
      split; [exact Hin|]. split; apply number_gt_finite; assumption.
    + intros Hall. apply Hnone. intros item Hin.
      destruct (Hall item Hin) as [Hle|Hle]; [left|right];
        apply not_exceeds, number_gt_finite_false, Hle.
Qed.

Lemma best_value_needs_score_witness :
  current (world_of best_rows) = Some best_rows
  /\ exists res,
    computeBestValue (world_of best_rows) = Ok (res, world_of best_rows)
    /\ (forall r, res = Some r ->
          r ∈ best_rows /\ 0 < price r /\ 0 < review_scores_rating r).
Proof.
  split; [reflexivity|].
  destruct (proj2 best_value_needs_score (world_of best_rows) best_rows eq_refl)
    as (res & Hrun & Hsome & _).
  exists res. split; assumption.
Defined.

(** A positive score over a positive price is not enough: the least
    positive double over 4 rounds to zero, and nothing is returned. *)
Example best_value_underflow :
  computeBestValue (world_of tiny_rows) = Ok (None, world_of tiny_rows)
  /\ Forall (fun item => 0 < price item /\ 0 < review_scores_rating item) tiny_rows.
Proof.
  split; [vm_compute; reflexivity|].
  repeat constructor.
Qed.

(** X11. The best value after a filter passes the filter: the listing
    [computeBestValue()] returns after a filter call is a listing of
    the snapshot before the call whose field lies in the range of the
    call. *)
Theorem best_value_after_filter (this : objref) (w : world)
    (orig cur : list Listing) (c : call) :
  original w = Some orig -> current w = Some cur -> is_filter c ->
  exists w' res,
    invoke this c w = Ok (this, w')
    /\ computeBestValue w' = Ok (res, w')
    /\ forall r, res = Some r -> r ∈ cur /\ accepts c r.
Proof.
  intros Ho Hc Hf.
  pose proof (invoke_run this c w orig cur Ho Hc) as Hrun.
  rewrite (snapshot_after_accepts _ _ _ Hf) in Hrun.
  destruct (computeBestValue_run _ _
              (current_fresh (heap w) (filter (accepts c) cur) (listingData w)))
    as (res & Hbest & Hres).
  eexists _, res. split; [exact Hrun|]. split; [exact Hbest|].
  intros r Hr. apply (best_value_member _ _ Hres) in Hr as [Hin _].
  apply list_elem_of_filter in Hin. tauto.
Qed.

Lemma best_value_after_filter_witness :
  original (world_of best_rows) = Some best_rows
  /\ current (world_of best_rows) = Some best_rows
  /\ is_filter (FilterByPrice 10 60)
  /\ exists w' res,
    invoke 0%nat (FilterByPrice 10 60) (world_of best_rows) = Ok (0%nat, w')
    /\ computeBestValue w' = Ok (res, w')
    /\ forall r, res = Some r -> r ∈ best_rows /\ accepts (FilterByPrice 10 60) r.
Proof.
  split; [reflexivity|]. split; [reflexivity|]. split; [exact I|].
  apply (best_value_after_filter 0%nat (world_of best_rows) best_rows best_rows
           (FilterByPrice 10 60)); [reflexivity|reflexivity|exact I].
Defined.

(** ** Decoding numbers *)

Lemma decimal_app x : forall y acc,
  decimal (x ++ y) acc =
    match decimal x acc with
    | Some v => decimal y v
    | None => None
    end.
Proof.
  induction x as [|c x IH]; intros y acc; simpl; [reflexivity|].
  destruct (digit c); [apply IH|reflexivity].
Qed.

Lemma read_digits_app ds : forall acc n v t,
  decimal ds acc = Some v -> ends_digits t ->
  read_digits (ds ++ t) acc n = (v, (n + String.length ds)%nat, t).
Proof.
  induction ds as [|c ds IH]; intros acc n v t; simpl.
  - intros [= <-] Ht. rewrite Nat.add_0_r. destruct t as [|c t]; [reflexivity|].
    simpl in Ht |- *. rewrite Ht. reflexivity.
  - destruct (digit c) as [d|] eqn:Hd; [|discriminate].
    intros Hv Ht. rewrite (IH _ (S n) v t Hv Ht).
    f_equal. f_equal. lia.
Qed.

Lemma digit_not_letter c d (x : ascii) :
  digit c = Some d -> digit x = None -> Ascii.eqb c x = false.
Proof.
  intros Hc Hx. destruct (Ascii.eqb_spec c x) as [->|]; [congruence|reflexivity].
Qed.

Lemma digits_first ds acc v :
  ds <> EmptyString -> decimal ds acc = Some v ->
  exists c ds' d, ds = String c ds' /\ digit c = Some d.
Proof.
  destruct ds as [|c ds']; [contradiction|]. intros _. cbn.
  destruct (digit c) as [d|] eqn:Hd; [|discriminate]. eauto.
Qed.

Lemma read_exponent_none t : ends_fraction t -> read_exponent t = 0%Z.
Proof.
  destruct t as [|c t]; [reflexivity|]. cbn. intros (_ & -> & ->). reflexivity.
Qed.

(** A run of digits that nothing continues is read as the double
    nearest to its value. *)
Lemma unsigned_literal_integer ds v t :
  ds <> EmptyString -> decimal ds 0 = Some v -> ends_numeral t ->
  unsigned_literal (ds ++ t) = round64 (inject_Z (Z.of_N v)).
Proof.
  intros Hne Hv Ht.
  destruct (digits_first ds 0%N v Hne Hv) as (c & ds' & d & -> & Hd).
  unfold unsigned_literal.
  assert (Hinf : string_prefix "Infinity" (String c ds' ++ t) = false).
  { change (Ascii.eqb "I" c && string_prefix "nfinity" (ds' ++ t) = false).
    rewrite Ascii.eqb_sym, (digit_not_letter c d "I" Hd); reflexivity. }
  rewrite Hinf.
  assert (Hdig : ends_digits t) by (destruct t; [exact I|apply Ht]).
  rewrite (read_digits_app _ 0%N 0%nat v t Hv Hdig).
  assert (Hexp : read_exponent t = 0%Z).
  { apply read_exponent_none. destruct t; [exact I|]. cbn in Ht |- *. tauto. }
  cbn [String.length Nat.add]. rewrite Hexp.
  assert (E : round64 (inject_Z (Z.of_N v) * 10 ^ 0) = round64 (inject_Z (Z.of_N v))).
  { apply round64_proper. change (10 ^ 0) with 1. apply Qmult_1_r. }
  destruct t as [|c' t']; [exact E|].
  destruct Ht as (_ & -> & _). exact E.
Qed.

(** Digits, a dot and digits that nothing continues are read as the
    double nearest to the decimal fraction. *)
Lemma unsigned_literal_fraction ds f v m t :
  ds <> EmptyString -> decimal ds 0 = Some v -> decimal f v = Some m ->
  ends_fraction t ->
  unsigned_literal (ds ++ "." ++ f ++ t)
    = round64 (inject_Z (Z.of_N m) / 10 ^ Z.of_nat (String.length f)).
Proof.
  intros Hne Hv Hm Ht.
  destruct (digits_first ds 0%N v Hne Hv) as (c & ds' & d & -> & Hd).
  unfold unsigned_literal.
  assert (Hinf : string_prefix "Infinity" (String c ds' ++ "." ++ f ++ t) = false).
  { change (Ascii.eqb "I" c && string_prefix "nfinity" (ds' ++ "." ++ f ++ t) = false).
    rewrite Ascii.eqb_sym, (digit_not_letter c d "I" Hd); reflexivity. }
  rewrite Hinf.
  rewrite (read_digits_app _ 0%N 0%nat v ("." ++ f ++ t) Hv) by reflexivity.
  cbn [String.length Nat.add].
  change ("." ++ f ++ t)%string with (String "." (f ++ t)).
  cbv beta iota. rewrite Ascii.eqb_refl.
  assert (Hdig : ends_digits t) by (destruct t; [exact I|apply Ht]).
  rewrite (read_digits_app f v 0%nat m t Hm Hdig).
  rewrite (read_exponent_none t Ht). cbn [Nat.add].
  apply round64_proper. change (10 ^ 0) with 1. apply Qmult_1_r.
Qed.

Lemma parseFloat_digit_start c rest d :
  digit c = Some d -> parseFloat (String c rest) = unsigned_literal (String c rest).
Proof.
  intros H. destruct c as [[] [] [] [] [] [] [] []];
    vm_compute in H; try discriminate; reflexivity.
Qed.

(** [parseFloat] rounds: above [2 ^ 53] not every integer is a double,
    a decimal fraction is seldom one, a numeral beyond the largest
    double gives [Infinity] and one below the least positive double
    gives 0. *)
Example parseFloat_rounds :
  parseFloat "9007199254740993" = Finite 9007199254740992
  /\ parseFloat "4.8" = Finite (5404319552844595 # 1125899906842624)
  /\ parseFloat "1e400" = Infinity false
  /\ parseFloat "1e-400" = Finite 0.
Proof. repeat split; vm_compute; reflexivity. Qed.

(** A text no numeral begins is not a number. *)
Lemma parseFloat_not_numeric s : not_numeric s -> parseFloat s = NaN.
Proof.
  unfold not_numeric, parseFloat.
  destruct (skip_whitespace s) as [|c t]; [reflexivity|].
  intros H. destruct c as [[] [] [] [] [] [] [] []];
    vm_compute in H; try discriminate; reflexivity.
Qed.

Lemma replace_first_digits a : forall acc v c r,
  decimal a acc = Some v -> digit c = None ->
  replace_first c (a ++ String c r) = (a ++ r)%string.
Proof.
  induction a as [|x a IH]; intros acc v c r; simpl.
  - intros _ _. rewrite Ascii.eqb_refl. reflexivity.
  - destruct (digit x) as [d|] eqn:Hd; [|discriminate]. intros Hv Hc.
    rewrite (digit_not_letter x d c Hd Hc), (IH _ _ _ _ Hv Hc). reflexivity.
Qed.

(** [x || 0] is [x] for every number but [NaN]. *)
Lemma number_or_zero_round q : number_eq (number_or_zero (round64 q)) (round64 q).
Proof.
  pose proof (round64_not_NaN q) as Hq.
  destruct (round64 q) as [| |p]; cbn; [contradiction|reflexivity|].
  destruct (Qeq_bool p 0) eqn:E; cbn; [|reflexivity].
  apply Qeq_bool_iff in E. symmetry. exact E.
Qed.

Lemma number_eq_trans x y z : number_eq x y -> number_eq y z -> number_eq x z.
Proof.
  destruct x as [| |p], y as [| |q], z as [| |r]; cbn; try tauto; try congruence.
  intros -> ->. reflexivity.
Qed.

(** Integers up to [2 ^ 53] are doubles: rounding leaves them as they
    are. *)
Lemma Qred_integer z : Qred (inject_Z z) = inject_Z z.
Proof.
  unfold Qred, inject_Z.
  pose proof (Z.ggcd_gcd z 1) as Hg.
  pose proof (Z.ggcd_correct_divisors z 1) as Hd.
  destruct (Z.ggcd z 1) as [g [aa bb]]. cbn [fst snd] in *.
  rewrite Z.gcd_1_r in Hg. subst g. destruct Hd as [Ha Hb].
  rewrite Z.mul_1_l in Ha, Hb. rewrite <- Ha, <- Hb. reflexivity.
Qed.

Lemma round_half_even_integer n : round_half_even n 1 = n.
Proof.
  unfold round_half_even. rewrite Z.mod_1_r, Z.div_1_r. reflexivity.
Qed.

Lemma round_magnitude_integer p :
  (Zpos p < 2 ^ 53)%Z ->
  exists v, round_magnitude p 1 = Some v /\ v == inject_Z (Zpos p).
Proof.
  intros Hp.
  assert (Hlog : (0 <= Z.log2 (Zpos p) <= 52)%Z).
  { split; [apply Z.log2_nonneg|].
    assert (Z.log2 (Zpos p) < 53)%Z by (apply Z.log2_lt_pow2; lia). lia. }
  pose proof (Z.log2_spec (Zpos p) ltac:(lia)) as [Hlo Hhi].
  set (e := (Z.log2 (Zpos p) - 52)%Z).
  assert (Hexp : exponent p 1 = e).
  { unfold exponent. change (Z.log2 1) with 0%Z. rewrite Z.sub_0_r. fold e.
    destruct e as [|k|k] eqn:He; cbv beta iota zeta delta [scaled].
    - rewrite Z.div_1_r.
      assert (Z.log2 (Zpos p) = 52)%Z as E52 by lia. rewrite E52 in Hlo.
      destruct (Z.ltb_spec (Zpos p) (2 ^ 52)); lia.
    - lia.
    - rewrite Z.div_1_r, Pos2Z.inj_mul, Pos2Z.inj_pow.
      assert (Hk : (Z.log2 (Zpos p) + Zpos k = 52)%Z) by lia.
      assert (Hge : (2 ^ 52 <= Zpos p * 2 ^ Zpos k)%Z).
      { rewrite <- Hk, Z.pow_add_r by lia.
        apply Z.mul_le_mono_nonneg_r; [apply Z.pow_nonneg; lia|exact Hlo]. }
      destruct (Z.ltb_spec (Zpos p * 2 ^ Zpos k) (2 ^ 52)); lia. }
  assert (Hsig : inject_Z (significand p 1) * pow2 e == inject_Z (Zpos p)).
  { unfold significand. rewrite Hexp.
    destruct e as [|k|k] eqn:He; cbv beta iota zeta delta [scaled pow2].
    - rewrite round_half_even_integer. ring.
    - lia.
    - rewrite round_half_even_integer. unfold Qeq, inject_Z. cbn [Qnum Qden Qmult].
      rewrite Pos2Z.inj_mul. lia. }
  unfold round_magnitude. rewrite Hexp.
  assert (H971 : (971 <? e)%Z = false) by (apply Z.ltb_ge; lia).
  assert (H971' : (e =? 971)%Z = false) by (apply Z.eqb_neq; lia).
  rewrite H971, H971'. cbn [orb andb].
  eexists. split; [reflexivity|]. rewrite Qred_correct. exact Hsig.
Qed.

Lemma round64_integer n :
  (n <= 2 ^ 53)%N ->
  number_eq (round64 (inject_Z (Z.of_N n))) (Finite (inject_Z (Z.of_N n))).
Proof.
  intros Hn. destruct (N.eq_dec n (2 ^ 53)%N) as [->|Hne]; [vm_compute; reflexivity|].
  unfold round64. rewrite Qred_integer. destruct n as [|p]; [reflexivity|].
  cbn [Z.of_N inject_Z Qnum Qden].
  destruct (round_magnitude_integer p) as (v & -> & Hv); [lia|exact Hv].
Qed.

Lemma number_or_zero_not_NaN x : number_or_zero x <> NaN.
Proof.
  destruct x as [| |p]; cbn; try discriminate.
  destruct (Qeq_bool p 0); discriminate.
Qed.

(** X12. The three numbers [loadCSV] decodes are never [NaN].  A
    missing column gives 0, and so does a text that, once the first
    dollar sign and the first comma are removed from a price, is empty
    or begins after its white space with a character no numeral begins
    with. *)
Theorem decode_defaults (row : record) :
  (item_price (decode row) <> NaN
   /\ item_bedrooms (decode row) <> NaN
   /\ item_review_scores_rating (decode row) <> NaN)
  /\ (column row "price" = None -> item_price (decode row) = Finite 0)
  /\ (column row "bedrooms" = None -> item_bedrooms (decode row) = Finite 0)
  /\ (column row "review_scores_rating" = None ->
      item_review_scores_rating (decode row) = Finite 0)
  /\ (forall text, column row "price" = Some text ->
        not_numeric (replace_first "," (replace_first "$" text)) ->
        item_price (decode row) = Finite 0)
  /\ (forall text, column row "bedrooms" = Some text -> not_numeric text ->
        item_bedrooms (decode row) = Finite 0)
  /\ (forall text, column row "review_scores_rating" = Some text ->
        not_numeric text -> item_review_scores_rating (decode row) = Finite 0).
Proof.
  cbn [decode item_price item_bedrooms item_review_scores_rating].
  unfold decode_price, decode_number.
  split; [|split; [|split; [|split; [|split; [|split]]]]].
  - repeat split.
    + destruct (column row "price"); apply number_or_zero_not_NaN.
    + destruct (column row "bedrooms"); apply number_or_zero_not_NaN.
    + destruct (column row "review_scores_rating"); apply number_or_zero_not_NaN.
  - intros ->. reflexivity.
  - intros ->. reflexivity.
  - intros ->. reflexivity.
  - intros text -> H. rewrite (parseFloat_not_numeric _ H). reflexivity.
  - intros text -> H. rewrite (parseFloat_not_numeric _ H). reflexivity.
  - intros text -> H. rewrite (parseFloat_not_numeric _ H). reflexivity.
Qed.

Lemma strip_currency a acc v r :
  decimal a acc = Some v ->
  replace_first "," (replace_first "$" ("$" ++ a ++ "," ++ r)) = (a ++ r)%string.
Proof.
  intros Hv.
  change (replace_first "$" ("$" ++ a ++ "," ++ r)) with (a ++ String "," r)%string.
  apply (replace_first_digits a acc v "," r Hv). reflexivity.
Qed.

Lemma digits_prefix a b acc n :
  decimal (a ++ b) acc = Some n ->
  exists v, decimal a acc = Some v /\ decimal b v = Some n.
Proof.
  rewrite decimal_app. destruct (decimal a acc) as [v|]; [eauto|discriminate].
Qed.

Lemma parseFloat_digits ds acc v t :
  ds <> EmptyString -> decimal ds acc = Some v ->
  parseFloat (ds ++ t) = unsigned_literal (ds ++ t).
Proof.
  intros Hne Hv. destruct (digits_first ds acc v Hne Hv) as (c & ds' & d & -> & Hd).
  apply (parseFloat_digit_start c (ds' ++ t) d Hd).
Qed.

Lemma append_assoc (a b c : string) : ((a ++ b) ++ c)%string = (a ++ b ++ c)%string.
Proof.
  induction a as [|x a IH]; [reflexivity|].
  change (String x ((a ++ b) ++ c) = String x (a ++ b ++ c))%string.
  rewrite IH. reflexivity.
Qed.

Lemma append_empty (a : string) : (a ++ EmptyString)%string = a.
Proof.
  induction a as [|x a IH]; [reflexivity|].
  change (String x (a ++ EmptyString) = String x a)%string.
  rewrite IH. reflexivity.
Qed.

Lemma digits_nonempty a b : a <> EmptyString -> (a ++ b)%string <> EmptyString.
Proof. destruct a; [contradiction|discriminate]. Qed.

(** X13. A price written with a dollar sign, one comma and a decimal
    fraction, as [$1,234.50], decodes to the double nearest to the
    number the digits denote: with [a], [b], [f] runs of digits and [m]
    the value of the digits of [a], [b] and [f] in a row, the text
    [$a,b.f] gives [m / 10^|f|] rounded to the nearest double, an
    infinity when that is beyond the largest double. *)
Theorem decode_price_currency (row : record) (a b f : string) (m : N) :
  column row "price" = Some ("$" ++ a ++ "," ++ b ++ "." ++ f)%string ->
  a <> EmptyString ->
  decimal (a ++ b ++ f) 0 = Some m ->
  number_eq (item_price (decode row))
    (round64 (inject_Z (Z.of_N m) / 10 ^ Z.of_nat (String.length f))).
Proof.
  intros Hcol Ha Hm. cbn [decode item_price]. unfold decode_price. rewrite Hcol.
  destruct (digits_prefix a (b ++ f) 0%N m Hm) as (va & Hva & Hbf).
  destruct (digits_prefix b f va m Hbf) as (n & Hn & Hf).
  assert (Hab : decimal (a ++ b) 0 = Some n) by (rewrite decimal_app, Hva; exact Hn).
  rewrite (strip_currency a 0%N va _ Hva).
  replace (a ++ b ++ "." ++ f)%string with ((a ++ b) ++ "." ++ f ++ "")%string
    by (rewrite append_assoc, append_empty; reflexivity).
  rewrite (parseFloat_digits (a ++ b) 0%N n _ (digits_nonempty a b Ha) Hab).
  rewrite (unsigned_literal_fraction (a ++ b) f n m EmptyString
             (digits_nonempty a b Ha) Hab Hf I).
  apply number_or_zero_round.
Qed.

Lemma decode_price_currency_witness :
  column [("price", "$1,234.50")]%string "price"
    = Some ("$" ++ "1" ++ "," ++ "234" ++ "." ++ "50")%string
  /\ number_eq (item_price (decode [("price", "$1,234.50")]%string))
       (round64 (inject_Z (Z.of_N 123450) / 10 ^ Z.of_nat (String.length "50"))).
Proof.
  split; [reflexivity|].
  apply (decode_price_currency [("price", "$1,234.50")]%string "1" "234" "50" 123450);
    [reflexivity|discriminate|reflexivity].
Defined.

(** X14. Only the first comma of a price is removed, so the numeral
    stops at a second one: with [a] and [b] runs of digits, the text
    [$a,b] followed by anything that does not continue a numeral, a
    comma for one, decodes to the double nearest to the value [n] of
    the digits of [a] and [b], which is [n] itself up to [2 ^ 53];
    [$1,234,567.00] decodes to 1234. *)
Theorem decode_price_second_comma (row : record) (a b tail : string) (n : N) :
  column row "price" = Some ("$" ++ a ++ "," ++ b ++ tail)%string ->
  a <> EmptyString ->
  decimal (a ++ b) 0 = Some n ->
  ends_numeral tail ->
  number_eq (item_price (decode row)) (round64 (inject_Z (Z.of_N n)))
  /\ ((n <= 2 ^ 53)%N ->
      number_eq (item_price (decode row)) (Finite (inject_Z (Z.of_N n)))).
Proof.
  intros Hcol Ha Hn Ht. cbn [decode item_price]. unfold decode_price. rewrite Hcol.
  destruct (digits_prefix a b 0%N n Hn) as (va & Hva & _).
  rewrite (strip_currency a 0%N va _ Hva), <- append_assoc.
  rewrite (parseFloat_digits (a ++ b) 0%N n _ (digits_nonempty a b Ha) Hn).
  rewrite (unsigned_literal_integer (a ++ b) n tail (digits_nonempty a b Ha) Hn Ht).
  split; [apply number_or_zero_round|].
  intros Hle. eapply number_eq_trans; [apply number_or_zero_round|].
  apply round64_integer, Hle.
Qed.

Lemma decode_price_second_comma_witness :
  column [("price", "$1,234,567.00")]%string "price"
    = Some ("$" ++ "1" ++ "," ++ "234" ++ ",567.00")%string
  /\ ends_numeral ",567.00"
  /\ number_eq (item_price (decode [("price", "$1,234,567.00")]%string))
       (Finite (inject_Z (Z.of_N 1234))).
Proof.
  split; [reflexivity|]. split; [vm_compute; auto|].
  apply (proj2 (decode_price_second_comma [("price", "$1,234,567.00")]%string
                  "1" "234" ",567.00" 1234 eq_refl ltac:(discriminate) eq_refl
                  ltac:(vm_compute; auto))).
  vm_compute. discriminate.
Defined.

(** ** The filter command *)

Lemma filter_all {A} (P : A -> Prop) `{!forall x, Decision (P x)} (l : list A) :
  (forall x, P x) -> filter P l = l.
Proof.
  intros HP. induction l as [|x l IH]; [reflexivity|].
  rewrite filter_cons_True by apply HP. rewrite IH. reflexivity.
Qed.

Lemma filter_none {A} (P : A -> Prop) `{!forall x, Decision (P x)} (l : list A) :
  (forall x, ~ P x) -> filter P l = [].
Proof.
  intros HP. induction l as [|x l IH]; [reflexivity|].
  rewrite filter_cons_False by apply HP. exact IH.
Qed.

(** One block of [handleFilter]: the pair's test, or nothing at all for
    a blank pair. *)
Lemma filter_if_answered_run (g : Listing -> Q) (this : objref) lo hi w cur :
  current w = Some cur ->
  exists w',
    filter_if_answered
      (fun a b => filter_current (fun item => in_bounds a b (g item)) this) lo hi w
      = Ok (tt, w')
    /\ current w' = Some (filter (fun item => pair_test lo hi (g item) = true) cur)
    /\ (bounds_of lo hi = None -> w' = w).
Proof.
  intros Hc. unfold filter_if_answered, pair_test.
  destruct (bounds_of lo hi) as [[a b]|].
  - eexists. split; [|split].
    + unfold mbind, M_mbind. rewrite (filter_current_run _ this w cur Hc). reflexivity.
    + rewrite current_fresh. f_equal. apply filter_test. intros x. reflexivity.
    + discriminate.
  - exists w. split; [reflexivity|]. split; [|reflexivity].
    rewrite Hc. f_equal. symmetry. apply filter_all. reflexivity.
Qed.

Lemma handleFilter_run (handler : objref)
    (minPrice maxPrice minRooms maxRooms minScore maxScore : string) w cur :
  current w = Some cur ->
  exists w',
    handleFilter handler minPrice maxPrice minRooms maxRooms minScore maxScore w
      = Ok (tt, w')
    /\ current w' =
         Some (filter (fun item =>
                 pair_test minPrice maxPrice (price item) = true
                 /\ pair_test minRooms maxRooms (bedrooms item) = true
                 /\ pair_test minScore maxScore (review_scores_rating item) = true)
               cur)
    /\ (bounds_of minPrice maxPrice = None -> bounds_of minRooms maxRooms = None ->
        bounds_of minScore maxScore = None -> w' = w).
Proof.
  intros Hc.
  destruct (filter_if_answered_run price handler minPrice maxPrice w cur Hc)
    as (w1 & H1 & Hc1 & Hn1).
  destruct (filter_if_answered_run bedrooms handler minRooms maxRooms w1 _ Hc1)
    as (w2 & H2 & Hc2 & Hn2).
  destruct (filter_if_answered_run review_scores_rating handler minScore maxScore
              w2 _ Hc2) as (w3 & H3 & Hc3 & Hn3).
  exists w3. split; [|split].
  - unfold handleFilter, mbind, M_mbind,
      filterByPrice_bounds, filterByBedrooms_bounds, filterByReviewScore_bounds.
    rewrite H1, H2. exact H3.
  - rewrite Hc3, !list_filter_filter. f_equal. apply list_filter_iff.
    intros x. tauto.
  - intros E1 E2 E3. rewrite (Hn3 E3), (Hn2 E2), (Hn1 E1). reflexivity.
Qed.

(** X15. [handleFilter()] leaves the listings that pass the test of
    every pair of answers, in their order; a pair of two blank answers
    tests nothing, and with six blank answers nothing is called and the
    pipeline is as it was. *)
Theorem handleFilter_conjunction (handler : objref)
    (minPrice maxPrice minRooms maxRooms minScore maxScore : string)
    (w : world) (cur : list Listing) :
  current w = Some cur ->
  exists w',
    handleFilter handler minPrice maxPrice minRooms maxRooms minScore maxScore w
      = Ok (tt, w')
    /\ current w' =
         Some (filter (fun item =>
                 pair_test minPrice maxPrice (price item) = true
                 /\ pair_test minRooms maxRooms (bedrooms item) = true
                 /\ pair_test minScore maxScore (review_scores_rating item) = true)
               cur)
    /\ (forall v, pair_test EmptyString EmptyString v = true)
    /\ (minPrice = EmptyString -> maxPrice = EmptyString ->
        minRooms = EmptyString -> maxRooms = EmptyString ->
        minScore = EmptyString -> maxScore = EmptyString -> w' = w).
Proof.
  intros Hc.
  destruct (handleFilter_run handler minPrice maxPrice minRooms maxRooms
              minScore maxScore w cur Hc) as (w' & Hrun & Hc' & Hnone).
  exists w'. split; [exact Hrun|]. split; [exact Hc'|]. split; [reflexivity|].
  intros -> -> -> -> -> ->. apply Hnone; reflexivity.
Qed.

Lemma handleFilter_conjunction_witness :
  current sample_world = Some sample_rows
  /\ exists w',
    handleFilter 0%nat "150" "" "" "1" "" "" sample_world = Ok (tt, w')
    /\ current w' =
         Some (filter (fun item =>
                 pair_test "150" "" (price item) = true
                 /\ pair_test "" "1" (bedrooms item) = true
                 /\ pair_test "" "" (review_scores_rating item) = true)
               sample_rows).
Proof.
  split; [reflexivity|].
  destruct (handleFilter_conjunction 0%nat "150" "" "" "1" "" ""
              sample_world sample_rows eq_refl) as (w' & H1 & H2 & _).
  exists w'. split; assumption.
Defined.

Lemma pair_test_unreadable lo hi v :
  unreadable lo \/ unreadable hi -> pair_test lo hi v = false.
Proof.
  unfold pair_test, bounds_of, unreadable.
  intros [[Ha Hn]|[Ha Hn]]; rewrite Ha; rewrite (parseFloat_not_numeric _ Hn).
  - reflexivity.
  - rewrite orb_true_r. unfold in_bounds.
    apply andb_false_iff. right. reflexivity.
Qed.

(** X16. An answer that is not blank and that is no number empties the
    current snapshot: [parseFloat] gives [NaN], and no listing passes a
    comparison with [NaN]. *)
Theorem handleFilter_unreadable (handler : objref)
    (minPrice maxPrice minRooms maxRooms minScore maxScore : string)
    (w : world) (cur : list Listing) :
  current w = Some cur ->
  unreadable minPrice \/ unreadable maxPrice \/ unreadable minRooms
  \/ unreadable maxRooms \/ unreadable minScore \/ unreadable maxScore ->
  exists w',
    handleFilter handler minPrice maxPrice minRooms maxRooms minScore maxScore w
      = Ok (tt, w')
    /\ current w' = Some [].
Proof.
  intros Hc Hbad.
  destruct (handleFilter_run handler minPrice maxPrice minRooms maxRooms
              minScore maxScore w cur Hc) as (w' & Hrun & Hc' & _).
  exists w'. split; [exact Hrun|]. rewrite Hc'. f_equal.
  apply filter_none. intros x (H1 & H2 & H3).
  destruct Hbad as [H|[H|[H|[H|[H|H]]]]].
  - rewrite (pair_test_unreadable minPrice maxPrice) in H1 by auto. discriminate.
  - rewrite (pair_test_unreadable minPrice maxPrice) in H1 by auto. discriminate.
  - rewrite (pair_test_unreadable minRooms maxRooms) in H2 by auto. discriminate.
  - rewrite (pair_test_unreadable minRooms maxRooms) in H2 by auto. discriminate.
  - rewrite (pair_test_unreadable minScore maxScore) in H3 by auto. discriminate.
  - rewrite (pair_test_unreadable minScore maxScore) in H3 by auto. discriminate.
Qed.

Lemma handleFilter_unreadable_witness :
  current sample_world = Some sample_rows
  /\ unreadable "cheap"
  /\ exists w',
    handleFilter 0%nat "cheap" "" "" "" "" "" sample_world = Ok (tt, w')
    /\ current w' = Some [].
Proof.
  split; [reflexivity|].
  assert (H : unreadable "cheap") by (split; reflexivity).
  split; [exact H|].
  apply (handleFilter_unreadable 0%nat "cheap" "" "" "" "" ""
           sample_world sample_rows eq_refl).
  left. exact H.
Defined.

Lemma parseFloat_numeral s n :
  numeral s n -> parseFloat s = round64 (inject_Z (Z.of_N n)).
Proof.
  intros [Hne Hn]. rewrite <- (append_empty s).
  rewrite (parseFloat_digits s 0%N n EmptyString Hne Hn).
  apply (unsigned_literal_integer s n EmptyString Hne Hn). exact I.
Qed.

Lemma numeral_answered s n : numeral s n -> answered s = true.
Proof.
  intros [Hne _]. unfold answered. apply negb_true_iff, String.eqb_neq, Hne.
Qed.

Lemma Qle_bool_eq_l p a v : p == a -> Qle_bool p v = Qle_bool a v.
Proof.
  intros E. destruct (Qle_bool a v) eqn:H.
  - apply Qle_bool_iff. apply Qle_bool_iff in H. rewrite E. exact H.
  - destruct (Qle_bool p v) eqn:H'; [|reflexivity].
    apply Qle_bool_iff in H'. rewrite E in H'. apply Qle_bool_iff in H'. congruence.
Qed.

Lemma Qle_bool_eq_r q b v : q == b -> Qle_bool v q = Qle_bool v b.
Proof.
  intros E. destruct (Qle_bool v b) eqn:H.
  - apply Qle_bool_iff. apply Qle_bool_iff in H. rewrite E. exact H.
  - destruct (Qle_bool v q) eqn:H'; [|reflexivity].
    apply Qle_bool_iff in H'. rewrite E in H'. apply Qle_bool_iff in H'. congruence.
Qed.

Lemma pair_test_numerals lo hi a b v :
  numeral lo a -> numeral hi b -> (a <= 2 ^ 53)%N -> (b <= 2 ^ 53)%N ->
  (pair_test lo hi v = true <-> in_range (inject_Z (Z.of_N a)) (inject_Z (Z.of_N b)) v)
  /\ (pair_test lo EmptyString v = true <-> inject_Z (Z.of_N a) <= v)
  /\ (pair_test EmptyString hi v = true <-> in_range 0 (inject_Z (Z.of_N b)) v).
Proof.
  intros Hlo Hhi Ha Hb.
  pose proof (round64_integer a Ha) as Ea.
  pose proof (round64_integer b Hb) as Eb.
  rewrite <- (parseFloat_numeral lo a Hlo) in Ea.
  rewrite <- (parseFloat_numeral hi b Hhi) in Eb.
  unfold pair_test, bounds_of.
  rewrite (numeral_answered lo a Hlo), (numeral_answered hi b Hhi).
  cbn [answered String.eqb negb orb].
  destruct (parseFloat lo) as [| |p]; try contradiction.
  destruct (parseFloat hi) as [| |q]; try contradiction.
  cbn in Ea, Eb. unfold in_bounds. cbn [number_le].
  rewrite (Qle_bool_eq_l p _ v Ea), (Qle_bool_eq_r q _ v Eb).
  split; [apply range_test|]. split.
  - rewrite andb_true_r. apply Qle_bool_iff.
  - apply range_test.
Qed.

(** X17. Numerals of integers up to [2 ^ 53], which are doubles, as
    answers to the price prompts of [handleFilter()] give the ranges
    one expects: both answered, the closed range between the two
    values; the maximum left blank, every price from the minimum up,
    without an upper limit; the minimum left blank, the range from 0 to
    the maximum. *)
Theorem handleFilter_price_numerals (handler : objref) (lo hi : string) (a b : N)
    (w : world) (cur : list Listing) :
  current w = Some cur -> numeral lo a -> numeral hi b ->
  (a <= 2 ^ 53)%N -> (b <= 2 ^ 53)%N ->
  (exists w',
     handleFilter handler lo hi EmptyString EmptyString EmptyString EmptyString w
       = Ok (tt, w')
     /\ current w' =
          Some (filter (fun item =>
                  in_range (inject_Z (Z.of_N a)) (inject_Z (Z.of_N b)) (price item))
                cur))
  /\ (exists w',
     handleFilter handler lo EmptyString EmptyString EmptyString EmptyString
       EmptyString w = Ok (tt, w')
     /\ current w' =
          Some (filter (fun item => inject_Z (Z.of_N a) <= price item) cur))
  /\ (exists w',
     handleFilter handler EmptyString hi EmptyString EmptyString EmptyString
       EmptyString w = Ok (tt, w')
     /\ current w' =
          Some (filter (fun item => in_range 0 (inject_Z (Z.of_N b)) (price item))
                cur)).
Proof.
  intros Hc Hlo Hhi Ha Hb.
  split; [|split].
  - destruct (handleFilter_run handler lo hi EmptyString EmptyString EmptyString
                EmptyString w cur Hc) as (w' & Hrun & Hc' & _).
    exists w'. split; [exact Hrun|]. rewrite Hc'. f_equal.
    apply list_filter_iff. intros x.
    destruct (pair_test_numerals lo hi a b (price x) Hlo Hhi Ha Hb) as (E & _ & _).
    rewrite E. split; [tauto|]. intros H. split; [exact H|]. split; reflexivity.
  - destruct (handleFilter_run handler lo EmptyString EmptyString EmptyString
                EmptyString EmptyString w cur Hc) as (w' & Hrun & Hc' & _).
    exists w'. split; [exact Hrun|]. rewrite Hc'. f_equal.
    apply list_filter_iff. intros x.
    destruct (pair_test_numerals lo hi a b (price x) Hlo Hhi Ha Hb) as (_ & E & _).
    rewrite E. split; [tauto|]. intros H. split; [exact H|]. split; reflexivity.
  - destruct (handleFilter_run handler EmptyString hi EmptyString EmptyString
                EmptyString EmptyString w cur Hc) as (w' & Hrun & Hc' & _).
    exists w'. split; [exact Hrun|]. rewrite Hc'. f_equal.
    apply list_filter_iff. intros x.
    destruct (pair_test_numerals lo hi a b (price x) Hlo Hhi Ha Hb) as (_ & _ & E).
    rewrite E. split; [tauto|]. intros H. split; [exact H|]. split; reflexivity.
Qed.

Lemma handleFilter_price_numerals_witness :
  current sample_world = Some sample_rows
  /\ numeral "150" 150 /\ numeral "250" 250
  /\ (150 <= 2 ^ 53)%N /\ (250 <= 2 ^ 53)%N
  /\ exists w',
     handleFilter 0%nat "150" "250" EmptyString EmptyString EmptyString
       EmptyString sample_world = Ok (tt, w')
     /\ current w' =
          Some (filter (fun item =>
                  in_range (inject_Z (Z.of_N 150)) (inject_Z (Z.of_N 250))
                    (price item))
                sample_rows).
Proof.
  assert (H1 : numeral "150" 150) by (split; [discriminate|reflexivity]).
  assert (H2 : numeral "250" 250) by (split; [discriminate|reflexivity]).
  assert (H3 : (150 <= 2 ^ 53)%N) by (vm_compute; discriminate).
  assert (H4 : (250 <= 2 ^ 53)%N) by (vm_compute; discriminate).
  split; [reflexivity|]. split; [exact H1|]. split; [exact H2|].
  split; [exact H3|]. split; [exact H4|].
  apply (handleFilter_price_numerals 0%nat "150" "250" 150 250
           sample_world sample_rows eq_refl H1 H2 H3 H4).
Defined.

(** ** The impure counter *)



(** ** Numbers with text after them *)

(** X18. [parseFloat] reads the numeral a text begins with and ignores
    what follows it: a bedroom count or review score written as a run
    of digits, or as digits, a dot and digits, followed by anything
    that does not continue the numeral, decodes to the double nearest
    to the number the digits denote; for a run of digits with a value
    up to [2 ^ 53] that is the value itself. *)
Theorem decode_number_prefix (row : record) (name ds f tail : string) (n m : N) :
  numeral ds n ->
  (column row name = Some (ds ++ tail)%string -> ends_numeral tail ->
   number_eq (decode_number row name) (round64 (inject_Z (Z.of_N n)))
   /\ ((n <= 2 ^ 53)%N ->
       number_eq (decode_number row name) (Finite (inject_Z (Z.of_N n)))))
  /\ (column row name = Some (ds ++ "." ++ f ++ tail)%string ->
      decimal f n = Some m -> ends_fraction tail ->
      number_eq (decode_number row name)
        (round64 (inject_Z (Z.of_N m) / 10 ^ Z.of_nat (String.length f)))).
Proof.
  intros [Hne Hn]. unfold decode_number. split.
  - intros -> Ht.
    rewrite (parseFloat_digits ds 0%N n _ Hne Hn).
    rewrite (unsigned_literal_integer ds n tail Hne Hn Ht).
    split; [apply number_or_zero_round|].
    intros Hle. eapply number_eq_trans; [apply number_or_zero_round|].
    apply round64_integer, Hle.
  - intros -> Hf Ht.
    rewrite (parseFloat_digits ds 0%N n _ Hne Hn).
    rewrite (unsigned_literal_fraction ds f n m tail Hne Hn Hf Ht).
    apply number_or_zero_round.
Qed.

Lemma decode_number_prefix_witness :
  numeral "3" 3
  /\ column [("bedrooms", "3 beds")]%string "bedrooms" = Some ("3" ++ " beds")%string
  /\ ends_numeral " beds"
  /\ number_eq (decode_number [("bedrooms", "3 beds")]%string "bedrooms")
       (Finite (inject_Z (Z.of_N 3))).
Proof.
  assert (H : numeral "3" 3) by (split; [discriminate|reflexivity]).
  assert (Ht : ends_numeral " beds") by (vm_compute; auto).
  split; [exact H|]. split; [reflexivity|]. split; [exact Ht|].
  apply (proj1 (decode_number_prefix [("bedrooms", "3 beds")]%string "bedrooms"
                  "3" "" " beds" 3 3 H) eq_refl Ht).
  vm_compute. discriminate.
Defined.

(** ** Export from the command line *)

(** X20. The export command writes what the filters have left: after
    load and any chain of calls, [handleExport()] with a file name asks
    for one write, to that file, of the array [currentData] refers to,
    whose elements are the current snapshot and which is not the
    original array; with a blank answer it asks for none.  In both
    cases the pipeline stays as it is. *)
Theorem handleExport_current (this : objref) (rows : list Listing) (cs : list call)
    (fileName : string) :
  exists w,
    session this rows cs = Ok (this, w)
    /\ handleExport this EmptyString w = Ok (None, w)
    /\ (fileName <> EmptyString ->
        exists l,
          handleExport this fileName w
            = Ok (Some {| filename := fileName; payload := VListings l |}, w)
          /\ l <> listingData w
          /\ heap w !! l = Some (foldl (snapshot_after rows) rows cs)).
Proof.
  destruct (session_run this rows cs) as (w & Hrun & Hinv & Hc).
  exists w. split; [exact Hrun|]. split; [reflexivity|].
  intros Hne. exists (currentData w). split; [|split].
  - unfold handleExport, answered.
    apply String.eqb_neq in Hne. rewrite Hne. reflexivity.
  - apply Hinv.
  - exact Hc.
Qed.

(** ** Prices without a comma *)

Lemma replace_first_after_digits a : forall acc v c y,
  decimal a acc = Some v -> digit c = None ->
  replace_first c (a ++ y) = (a ++ replace_first c y)%string.
Proof.
  induction a as [|x a IH]; intros acc v c y; simpl; [reflexivity|].
  destruct (digit x) as [d|] eqn:Hd; [|discriminate]. intros Hv Hc.
  change (replace_first c (String x (a ++ y)) = String x (a ++ replace_first c y)).
  cbn [replace_first].
  rewrite (digit_not_letter x d c Hd Hc), (IH _ _ _ _ Hv Hc). reflexivity.
Qed.

Lemma replace_first_digits_only a acc v c :
  decimal a acc = Some v -> digit c = None -> replace_first c a = a.
Proof.
  intros Hv Hc. rewrite <- (append_empty a) at 1.
  rewrite (replace_first_after_digits a acc v c EmptyString Hv Hc).
  apply append_empty.
Qed.

(** X21. A price below one thousand, written with a dollar sign and a
    decimal fraction and no comma, as [$150.00], decodes to the double
    nearest to the number its digits denote: with [a] and [f] runs of
    digits and [m] the value of the digits of [a] and [f] in a row, the
    text [$a.f] gives [m / 10^|f|] rounded to the nearest double. *)
Theorem decode_price_plain (row : record) (a f : string) (m : N) :
  column row "price" = Some ("$" ++ a ++ "." ++ f)%string ->
  a <> EmptyString ->
  decimal (a ++ f) 0 = Some m ->
  number_eq (item_price (decode row))
    (round64 (inject_Z (Z.of_N m) / 10 ^ Z.of_nat (String.length f))).
Proof.
  intros Hcol Ha Hm. cbn [decode item_price]. unfold decode_price. rewrite Hcol.
  destruct (digits_prefix a f 0%N m Hm) as (n & Hn & Hf).
  change (replace_first "$" ("$" ++ a ++ "." ++ f)) with (a ++ String "." f)%string.
  rewrite (replace_first_after_digits a 0%N n "," _ Hn) by reflexivity.
  change (replace_first "," (String "." f)) with (String "." (replace_first "," f)).
  rewrite (replace_first_digits_only f n m "," Hf) by reflexivity.
  change (a ++ String "." f)%string with (a ++ "." ++ f)%string.
  rewrite <- (append_empty f) at 1.
  rewrite (parseFloat_digits a 0%N n _ Ha Hn).
  rewrite (unsigned_literal_fraction a f n m EmptyString Ha Hn Hf I).
  apply number_or_zero_round.
Qed.

Lemma decode_price_plain_witness :
  column [("price", "$150.00")]%string "price"
    = Some ("$" ++ "150" ++ "." ++ "00")%string
  /\ number_eq (item_price (decode [("price", "$150.00")]%string))
       (round64 (inject_Z (Z.of_N 15000) / 10 ^ Z.of_nat (String.length "00"))).
Proof.
  split; [reflexivity|].
  apply (decode_price_plain [("price", "$150.00")]%string "150" "00" 15000);
    [reflexivity|discriminate|reflexivity].
Defined.
